(** * Duck Hunt (duckV1.py): the simulation core, embedded and verified

    The embedding follows [src/GameLogic/duckV1.py]: the [Duck] and
    [Particle] classes, the [new_game] dictionary and the body of the
    [while True] loop of [main], one loop iteration per [frame].

    Modelling choices.
    - Python [int] is [Z]; Python [float] is idealised as an exact rational
      [Q] (no rounding).  [dt = clock.tick(FPS) / 1000.0] is a number of
      milliseconds divided by 1000.
    - [math.sin] and [math.cos] are parameters of the development.
    - The [random] module is an oracle: every frame carries the values the
      calls to [random] would return in that frame.
    - Drawing, fonts and the window are not modelled. *)

From Stdlib Require Import ZArith QArith Qabs List Bool String Ascii.
From Stdlib Require Import DecimalString Lia Lqa.
Import ListNotations.
Open Scope Z_scope.

(** ** Constants *)

Definition WIN_W : Z := 1280.
Definition WIN_H : Z := 720.
Definition FPS : Z := 60.
Definition MAX_DUCKS : Z := 3.
Definition STARTING_LIVES : Z := 6.
Definition STARTING_AMMO : Z := 10.
Definition GAME_DURATION : Z := 60.
Definition DUCK_BASE_SPEED : Z := 180.
Definition SPEED_INCREMENT : Z := 15.
Definition MAX_SPEED : Z := 500.

Definition color : Type := (Z * Z * Z)%type.
Definition MUZZLE_COL : color := (255, 220, 80).

(** ** Numbers *)

(** Strict comparison of two rationals, as a boolean. *)
Definition Qlt_bool (a b : Q) : bool :=
  (Qnum a * QDen b <? Qnum b * QDen a)%Z.

(** ** class Duck *)

Module Duck.

Definition FLAP_SPEED : Z := 8.

Record t : Type := mk {
  speed : Z;
  size : Z;
  dir : Z;
  x : Q;
  y : Q;
  wave_amp : Q;
  wave_freq : Q;
  base_y : Q;
  time : Q;
  alive : bool;
  hit : bool;
  hit_timer : Z;
  flap_frame : Z;
  wing_up : bool
}.

(** What the four calls to [random] in [reset] return:
    [random.choice([-1, 1])] (as the picked position: [false] for the
    first element), [random.randint(60, int(WIN_H * 0.55))] and the two
    [random.uniform]s. *)
Record rnd : Type := mk_rnd {
  choice_dir : bool;
  randint_y : Z;
  uniform_amp : Q;
  uniform_freq : Q
}.

Definition reset (d : t) (speed0 : Z) (r : rnd) : t :=
  let dir0 := if choice_dir r then 1 else -1 in
  let x0 := if dir0 =? 1 then inject_Z (- size d)
            else inject_Z (WIN_W + size d) in
  let y0 := inject_Z (randint_y r) in
  {| speed := speed0; size := size d; dir := dir0;
     x := x0; y := y0;
     wave_amp := uniform_amp r; wave_freq := uniform_freq r;
     base_y := y0; time := 0%Q;
     alive := true; hit := false; hit_timer := 0;
     flap_frame := 0; wing_up := true |}.

(** [__init__]: sets [speed] and [size = 48], then calls [reset]; the
    fields [reset] assigns do not exist before it runs. *)
Definition init (speed0 : Z) (r : rnd) : t :=
  reset {| speed := speed0; size := 48; dir := 0;
           x := 0%Q; y := 0%Q; wave_amp := 0%Q; wave_freq := 0%Q;
           base_y := 0%Q; time := 0%Q;
           alive := false; hit := false; hit_timer := 0;
           flap_frame := 0; wing_up := false |} speed0 r.

Section WithSin.
Variable sin : Q -> Q.

Definition update (d : t) (dt : Q) (speed0 : Z) : t :=
  if negb (alive d) then d
  else
    let time1 := (time d + dt)%Q in
    let x1 := (x d + inject_Z (dir d * speed0) * dt)%Q in
    let y1 := (base_y d + sin (time1 * wave_freq d) * wave_amp d)%Q in
    let flap1 := flap_frame d + 1 in
    let flap2 := if flap1 >=? FLAP_SPEED then 0 else flap1 in
    let wing2 := if flap1 >=? FLAP_SPEED then negb (wing_up d)
                 else wing_up d in
    let timer1 := if hit d then hit_timer d - 1 else hit_timer d in
    let alive1 := if hit d then (if timer1 <=? 0 then false else alive d)
                  else alive d in
    {| speed := speed0; size := size d; dir := dir d;
       x := x1; y := y1;
       wave_amp := wave_amp d; wave_freq := wave_freq d;
       base_y := base_y d; time := time1;
       alive := alive1; hit := hit d; hit_timer := timer1;
       flap_frame := flap2; wing_up := wing2 |}.
End WithSin.

Definition is_offscreen (d : t) : bool :=
  Qlt_bool (x d) (inject_Z (- size d * 2))
  || Qlt_bool (inject_Z (WIN_W + size d * 2)) (x d).

(** Half extents of the hitbox. *)
Definition hw (d : t) : Q := (inject_Z (size d) * (9 # 10))%Q.
Definition hh (d : t) : Q := (inject_Z (size d) * (6 # 10))%Q.

Definition collides (d : t) (px py : Q) : bool :=
  Qlt_bool (Qabs (px - x d)) (hw d) && Qlt_bool (Qabs (py - y d)) (hh d).

(** [shoot] mutates the duck and returns a boolean: the pair is the duck
    after the call and the returned value. *)
Definition shoot (d : t) : t * bool :=
  if negb (alive d) || hit d then (d, false)
  else ({| speed := speed d; size := size d; dir := dir d;
           x := x d; y := y d;
           wave_amp := wave_amp d; wave_freq := wave_freq d;
           base_y := base_y d; time := time d;
           alive := alive d; hit := true; hit_timer := 20;
           flap_frame := flap_frame d; wing_up := wing_up d |}, true).

(** The lifecycle of the specification, read off [alive] and [hit]. *)
Inductive lifecycle : Type := Flying | Hit | Gone.

Definition lifecycle_of (d : t) : lifecycle :=
  if alive d then (if hit d then Hit else Flying) else Gone.

(** The test [duck.alive and not duck.hit] of the main loop. *)
Definition flying (d : t) : bool := alive d && negb (hit d).

End Duck.

(** ** class Particle *)

Module Particle.

Record t : Type := mk {
  x : Q;
  y : Q;
  vx : Q;
  vy : Q;
  life : Q;
  max_life : Q;
  col : color;
  r : Z
}.

(** What the calls to [random] in [__init__] return, in order: the angle,
    the speed, the life, the position picked by [random.choice] among the
    three colours, the radius. *)
Record rnd : Type := mk_rnd {
  uniform_angle : Q;
  uniform_speed : Q;
  uniform_life : Q;
  choice_color : nat;
  randint_r : Z
}.

Definition colors : list color :=
  [MUZZLE_COL; (255, 160, 30); (255, 80, 30)].

Section WithTrig.
Variables sin cos : Q -> Q.

Definition init (x0 y0 : Q) (g : rnd) : t :=
  {| x := x0; y := y0;
     vx := (cos (uniform_angle g) * uniform_speed g)%Q;
     vy := (sin (uniform_angle g) * uniform_speed g)%Q;
     life := uniform_life g; max_life := uniform_life g;
     col := nth (choice_color g mod 3)%nat colors MUZZLE_COL;
     r := randint_r g |}.
End WithTrig.

Definition update (p : t) (dt : Q) : t :=
  {| x := (x p + vx p * dt)%Q;
     y := (y p + vy p * dt)%Q;
     vx := vx p;
     vy := (vy p + 400 * dt)%Q;
     life := (life p - dt)%Q;
     max_life := max_life p;
     col := col p;
     r := r p |}.

End Particle.

(** ** The state dictionary of [main] *)

Record state : Type := mk_state {
  score : Z;
  lives : Z;
  ammo : Z;
  time_left : Q;
  speed : Z;
  ducks : list Duck.t;
  particles : list Particle.t;
  game_over : bool;
  over_reason : string;
  mx : Z;
  my : Z;
  prev_btn : bool
}.

Definition TIMES_UP : string := "TIME'S UP!".
Definition OUT_OF_AMMO : string := "OUT OF AMMO!".
Definition GAME_OVER : string := "GAME OVER!".

(** The end reasons of the specification, as the strings the code stores
    in [over_reason]; the empty string is "no reason set". *)
Inductive endReason : Type := TimeUp | OutOfAmmo | NoLivesLeft.

Definition reason_string (e : endReason) : string :=
  match e with
  | TimeUp => TIMES_UP
  | OutOfAmmo => OUT_OF_AMMO
  | NoLivesLeft => GAME_OVER
  end.

(** Assignments to one key of the dictionary. *)
Definition set_reticle (st : state) (mx0 my0 : Z) : state :=
  mk_state (score st) (lives st) (ammo st) (time_left st) (speed st)
    (ducks st) (particles st) (game_over st) (over_reason st)
    mx0 my0 (prev_btn st).

Definition set_time_left (st : state) (tl : Q) : state :=
  mk_state (score st) (lives st) (ammo st) tl (speed st)
    (ducks st) (particles st) (game_over st) (over_reason st)
    (mx st) (my st) (prev_btn st).

Definition set_over (st : state) (reason : string) : state :=
  mk_state (score st) (lives st) (ammo st) (time_left st) (speed st)
    (ducks st) (particles st) true reason
    (mx st) (my st) (prev_btn st).

Definition set_ammo (st : state) (a : Z) : state :=
  mk_state (score st) (lives st) a (time_left st) (speed st)
    (ducks st) (particles st) (game_over st) (over_reason st)
    (mx st) (my st) (prev_btn st).

Definition set_score (st : state) (sc : Z) : state :=
  mk_state sc (lives st) (ammo st) (time_left st) (speed st)
    (ducks st) (particles st) (game_over st) (over_reason st)
    (mx st) (my st) (prev_btn st).

Definition set_speed (st : state) (sp : Z) : state :=
  mk_state (score st) (lives st) (ammo st) (time_left st) sp
    (ducks st) (particles st) (game_over st) (over_reason st)
    (mx st) (my st) (prev_btn st).

Definition set_lives (st : state) (l : Z) : state :=
  mk_state (score st) l (ammo st) (time_left st) (speed st)
    (ducks st) (particles st) (game_over st) (over_reason st)
    (mx st) (my st) (prev_btn st).

Definition set_ducks (st : state) (ds : list Duck.t) : state :=
  mk_state (score st) (lives st) (ammo st) (time_left st) (speed st)
    ds (particles st) (game_over st) (over_reason st)
    (mx st) (my st) (prev_btn st).

Definition set_particles (st : state) (ps : list Particle.t) : state :=
  mk_state (score st) (lives st) (ammo st) (time_left st) (speed st)
    (ducks st) ps (game_over st) (over_reason st)
    (mx st) (my st) (prev_btn st).

(** ** Inputs of one loop iteration *)

Inductive key : Type := K_ESCAPE | K_r | K_other.

Inductive event : Type :=
| QUIT
| KEYDOWN (k : key)
| MOUSEBUTTONDOWN (button : Z)
| OTHER.

Record input : Type := mk_input {
  (** [clock.tick(FPS)], in milliseconds *)
  tick_ms : N;
  (** [pygame.event.get()] *)
  events : list event;
  (** [pygame.mouse.get_rel()] *)
  rel : Z * Z;
  (** the random values for the ducks built by [new_game], by index *)
  rnd_new_game : nat -> Duck.rnd;
  (** the random values for [duck.reset] in the update loop, by index of
      the duck in the pool (a duck is reset at most once per iteration) *)
  rnd_reset : nat -> Duck.rnd;
  (** the random values for the particles created in this iteration, in
      creation order *)
  rnd_particle : nat -> Particle.rnd
}.

Definition dt_of (inp : input) : Q := (inject_Z (Z.of_N (tick_ms inp)) / 1000)%Q.

(** ** [main] *)

Definition new_game (g : nat -> Duck.rnd) : state :=
  {| score := 0;
     lives := STARTING_LIVES;
     ammo := STARTING_AMMO;
     time_left := inject_Z GAME_DURATION;
     speed := DUCK_BASE_SPEED;
     ducks := map (fun i => Duck.init DUCK_BASE_SPEED (g i))
                  (seq 0 (Z.to_nat MAX_DUCKS));
     particles := [];
     game_over := false;
     over_reason := "";
     mx := WIN_W / 2;
     my := WIN_H / 2;
     prev_btn := false |}.

(** The event loop.  [None]: the process exits ([sys.exit()]).  Otherwise
    the state (replaced by a fresh one when [R] is pressed while the game
    is over) and [shoot_this_frame]. *)
Fixpoint process_events (g : nat -> Duck.rnd) (evs : list event)
    (st : state) (shoot_this_frame : bool) : option (state * bool) :=
  match evs with
  | [] => Some (st, shoot_this_frame)
  | QUIT :: _ => None
  | KEYDOWN K_ESCAPE :: _ => None
  | KEYDOWN K_r :: rest =>
      if game_over st then process_events g rest (new_game g) shoot_this_frame
      else process_events g rest st shoot_this_frame
  | KEYDOWN K_other :: rest => process_events g rest st shoot_this_frame
  | MOUSEBUTTONDOWN button :: rest =>
      if (button =? 1) && negb (game_over st)
      then process_events g rest st true
      else process_events g rest st shoot_this_frame
  | OTHER :: rest => process_events g rest st shoot_this_frame
  end.

(** Mouse position (relative, captured). *)
Definition mouse_stage (inp : input) (st : state) : state :=
  set_reticle st
    (Z.max 0 (Z.min (WIN_W - 1) (mx st + fst (rel inp))))
    (Z.max 0 (Z.min (WIN_H - 1) (my st + snd (rel inp)))).

(** Timer. *)
Definition timer_stage (dt : Q) (st : state) : state :=
  let tl := (time_left st - dt)%Q in
  if Qle_bool tl 0 then set_over (set_time_left st 0%Q) TIMES_UP
  else set_time_left st tl.

(** The [for duck in state["ducks"]] loop of the shoot block, up to its
    [break]: the pool after the loop, and the duck that was shot, if any. *)
Fixpoint shoot_scan (ds : list Duck.t) (px py : Q)
    : list Duck.t * option Duck.t :=
  match ds with
  | [] => ([], None)
  | d :: rest =>
      if Duck.alive d && negb (Duck.hit d) && Duck.collides d px py
      then (fst (Duck.shoot d) :: rest, Some (fst (Duck.shoot d)))
      else let (rest', h) := shoot_scan rest px py in (d :: rest', h)
  end.

(** The test [duck.is_offscreen() and not duck.hit] of the update loop,
    on a duck that [update] has just moved. *)
Definition escaped (d : Duck.t) : bool :=
  Duck.is_offscreen d && negb (Duck.hit d).

Section Main.
Variables sin cos : Q -> Q.

(** [n] particles created at [(x0, y0)], drawing the random values
    number [k0], [k0 + 1], ... of the iteration. *)
Definition burst (g : nat -> Particle.rnd) (k0 n : nat) (x0 y0 : Q)
    : list Particle.t :=
  map (fun k => Particle.init sin cos x0 y0 (g k)) (seq k0 n).

(** Shoot. *)
Definition shoot_stage (shoot_this_frame : bool)
    (g : nat -> Particle.rnd) (st : state) : state :=
  if shoot_this_frame && (ammo st >? 0) then
    let st1 := set_ammo st (ammo st - 1) in
    let px := inject_Z (mx st) in
    let py := inject_Z (my st) in
    match shoot_scan (ducks st1) px py with
    | (ds, Some d) =>
        let st2 := set_ducks st1 ds in
        let st3 := set_score st2 (score st2 + 100) in
        let st4 := set_speed st3
                     (Z.min (speed st3 + SPEED_INCREMENT) MAX_SPEED) in
        let st5 := set_particles st4
                     (particles st4
                      ++ burst g 0 18 (Duck.x d) (Duck.y d)) in
        set_particles st5 (particles st5 ++ burst g 18 8 px py)
    | (ds, None) =>
        let st2 := set_ducks st1 ds in
        set_particles st2 (particles st2 ++ burst g 0 8 px py)
    end
  else st.

(** Ammo out with all ducks alive. *)
Definition alive_count (ds : list Duck.t) : Z :=
  Z.of_nat (List.length (filter Duck.flying ds)).

Definition ammo_stage (st : state) : state :=
  if ammo st =? 0 then
    if alive_count (ducks st) =? MAX_DUCKS then set_over st OUT_OF_AMMO
    else st
  else st.

(** One iteration of the [for i, duck in enumerate(state["ducks"])]
    loop: the state and the duck after it. *)
Definition duck_step (dt : Q) (r : Duck.rnd) (st : state) (d : Duck.t)
    : state * Duck.t :=
  let d1 := Duck.update sin d dt (speed st) in
  if escaped d1 then
    let st1 := set_lives st (lives st - 1) in
    let st2 := if lives st1 <=? 0
               then set_over (set_lives st1 0) GAME_OVER
               else st1 in
    (st2, Duck.reset d1 (speed st2) r)
  else if negb (Duck.alive d1) then (st, Duck.reset d1 (speed st) r)
  else (st, d1).

Fixpoint update_ducks (dt : Q) (g : nat -> Duck.rnd) (i : nat)
    (ds : list Duck.t) (st : state) : state * list Duck.t :=
  match ds with
  | [] => (st, [])
  | d :: rest =>
      let (st1, d1) := duck_step dt (g i) st d in
      let (st2, rest1) := update_ducks dt g (S i) rest st1 in
      (st2, d1 :: rest1)
  end.

(** Update ducks. *)
Definition ducks_stage (dt : Q) (g : nat -> Duck.rnd) (st : state)
    : state :=
  let (st1, ds) := update_ducks dt g 0 (ducks st) st in
  set_ducks st1 ds.

(** Update particles. *)
Definition particles_stage (dt : Q) (st : state) : state :=
  set_particles st
    (map (fun p => Particle.update p dt)
         (filter (fun p => Qlt_bool 0 (Particle.life p)) (particles st))).

(** The part of the loop body after the game-over screen: one tick of
    the simulation. *)
Definition tick (inp : input) (shoot_this_frame : bool) (st : state)
    : state :=
  let dt := dt_of inp in
  let st1 := mouse_stage inp st in
  let st2 := timer_stage dt st1 in
  let st3 := shoot_stage shoot_this_frame (rnd_particle inp) st2 in
  let st4 := ammo_stage st3 in
  let st5 := ducks_stage dt (rnd_reset inp) st4 in
  particles_stage dt st5.

(** One iteration of [while True].  [None]: the process exits. *)
Definition frame (st : state) (inp : input) : option state :=
  match process_events (rnd_new_game inp) (events inp) st false with
  | None => None
  | Some (st1, shoot_this_frame) =>
      if game_over st1 then Some st1
      else Some (tick inp shoot_this_frame st1)
  end.

(** Running the loop over a list of inputs. *)
Fixpoint run (st : state) (inps : list input) : option state :=
  match inps with
  | [] => Some st
  | inp :: rest =>
      match frame st inp with
      | None => None
      | Some st1 => run st1 rest
      end
  end.

(** The states the loop can be in at the top of an iteration. *)
Inductive reachable : state -> Prop :=
| reachable_new_game (g : nat -> Duck.rnd) : reachable (new_game g)
| reachable_frame (st st' : state) (inp : input) :
    reachable st -> frame st inp = Some st' -> reachable st'.

End Main.


(** * Concrete inputs and the specification's wording *)

(** The development is run on concrete inputs with this stand-in for
    [math.sin] and [math.cos]; none of the runs below depends on it. *)
Definition flat (_ : Q) : Q := 0%Q.

(** The box the specification words describe: centred on the duck, of
    total width 0.9 x size and total height 0.6 x size (borders included). *)
Definition in_spec_box (d : Duck.t) (px py : Q) : Prop :=
  (Qabs (px - Duck.x d) <= inject_Z (Duck.size d) * (9 # 10) / 2 /\
   Qabs (py - Duck.y d) <= inject_Z (Duck.size d) * (6 # 10) / 2)%Q.

(** A flying duck at height 100, heading right, at the given [x]. *)
Definition duck_at_100_x (x0 : Z) : Duck.t :=
  Duck.mk 180 48 1 (inject_Z x0) (100 # 1) (30 # 1) (2 # 1) (100 # 1) 0
    true false 0 0 true.

(** A duck at (100, 100), flying. *)
Definition duck_at_100 : Duck.t := duck_at_100_x 100.


(** The random values used in the runs: every duck enters from the left
    at height 100, every particle lives 0.15 s. *)
Definition rnd_duck (_ : nat) : Duck.rnd :=
  Duck.mk_rnd true 100 (30 # 1) (2 # 1).

Definition rnd_part (_ : nat) : Particle.rnd :=
  Particle.mk_rnd 0 (100 # 1) (15 # 100) 0 3.

(** An iteration of [ms] milliseconds with the given events and a still
    mouse. *)
Definition input_of (ms : N) (evs : list event) : input :=
  mk_input ms evs (0, 0) rnd_duck rnd_duck rnd_part.

Definition click : list event := [MOUSEBUTTONDOWN 1].

(** * The invariant of the loop *)

(** [over_reason] is the empty string while the game runs and one of the
    three end reasons once it is over. *)
Definition reason_ok (st : state) : Prop :=
  (game_over st = false /\ over_reason st = EmptyString) \/
  (game_over st = true /\ exists e, over_reason st = reason_string e).

Record Inv (st : state) : Prop := mk_Inv {
  inv_ammo : 0 <= ammo st <= STARTING_AMMO;
  inv_lives : 0 <= lives st <= STARTING_LIVES;
  inv_time : (0 <= time_left st)%Q;
  inv_mx : 0 <= mx st < WIN_W;
  inv_my : 0 <= my st < WIN_H;
  inv_reason : reason_ok st;
  inv_pool : List.length (ducks st) = Z.to_nat MAX_DUCKS;
  inv_playing : game_over st = false -> 0 < lives st
}.

(** What the update loop over the ducks may have done to the state [st0]
    it started from: only [lives], [game_over] and [over_reason] move, and
    the last two only when [lives] hits zero. *)
Definition loop_inv (st0 st : state) : Prop :=
  score st = score st0 /\ ammo st = ammo st0 /\
  time_left st = time_left st0 /\ speed st = speed st0 /\
  ducks st = ducks st0 /\ particles st = particles st0 /\
  mx st = mx st0 /\ my st = my st0 /\ prev_btn st = prev_btn st0 /\
  lives st <= lives st0 /\
  ((0 < lives st /\ game_over st = game_over st0
    /\ over_reason st = over_reason st0)
   \/ (lives st = 0 /\ game_over st = true /\ over_reason st = GAME_OVER)).

(** The events that set [shoot_this_frame] while the game runs. *)
Definition is_click (ev : event) : bool :=
  match ev with
  | MOUSEBUTTONDOWN button => button =? 1
  | _ => false
  end.

Definition is_restart (ev : event) : bool :=
  match ev with
  | KEYDOWN K_r => true
  | _ => false
  end.

(** The runs the statements below are evaluated on.  [after inps]: the
    state after running the loop from a fresh game over [inps] (the fresh
    game itself if the process exits on the way). *)
Definition after (inps : list input) : state :=
  match run flat flat (new_game rnd_duck) inps with
  | Some st => st
  | None => new_game rnd_duck
  end.

(** Nine ordinary frames of 16 ms with a shot in each: every shot misses
    (the reticle is at the centre, the ducks near the left edge). *)
Definition nine_misses : list input := repeat (input_of 16 click) 9.

(** The state in which the ducks are updated: after the reticle, the
    timer, the shot and the ammo check of the tick. *)
Definition before_shot (inp : input) (st : state) : state :=
  timer_stage (dt_of inp) (mouse_stage inp st).

Definition after_shot (sin cos : Q -> Q) (inp : input) (b : bool)
    (st : state) : state :=
  shoot_stage sin cos b (rnd_particle inp) (before_shot inp st).

Definition after_ammo_check (sin cos : Q -> Q) (inp : input) (b : bool)
    (st : state) : state :=
  ammo_stage (after_shot sin cos inp b st).

(** A duck the shot loop stops at: Flying, and the collision test at
    [(px, py)] succeeds. *)
Definition eligible (px py : Q) (d : Duck.t) : bool :=
  Duck.flying d && Duck.collides d px py.

(** What one turn of the update loop does to a duck, as far as the
    lifecycle goes: a Flying duck is Flying afterwards (moved or respawned)
    and a duck hit with more than one frame to go is still Hit. *)
Definition keeps_lifecycle (d d' : Duck.t) : Prop :=
  (Duck.flying d = true -> Duck.flying d' = true) /\
  (Duck.alive d = true -> Duck.hit d = true -> 1 < Duck.hit_timer d ->
   Duck.lifecycle_of d' = Duck.Hit).

(** Aiming at the left edge: the reticle is moved to (0, 100), where the
    three ducks of the fresh game enter, and one more frame passes; the
    ducks, all at the same place, are then under the reticle. *)
Definition aim_left : list input :=
  [mk_input 16 [] (-640, -260) rnd_duck rnd_duck rnd_part; input_of 16 []].


(** One shot, then nine quiet frames of 16 ms. *)
Definition flash_fading : list input :=
  input_of 16 click :: repeat (input_of 16 []) 9.

(** The number of ducks of the pool that are off-screen and not hit once
    [update] has moved them at speed [sp]. *)
Definition escapes (sin : Q -> Q) (dt : Q) (sp : Z) (ds : list Duck.t)
    : Z :=
  Z.of_nat
    (List.length
       (filter escaped (map (fun d => Duck.update sin d dt sp) ds))).

(** A state with one life left; a duck far beyond the right edge, flying;
    the same duck, hit. *)
Definition last_life : state := set_lives (new_game rnd_duck) 1.

Definition duck_gone_right : Duck.t := duck_at_100_x 1400.

(** * The rest of the loop: bookkeeping *)

(** The books of a round: [k] ducks shot so far, each paid with one round
    of ammo, worth 100 points and 15 px/s of speed. *)
Definition accounted (st : state) : Prop :=
  exists k : Z,
    0 <= k <= STARTING_AMMO - ammo st /\
    score st = 100 * k /\
    speed st = DUCK_BASE_SPEED + SPEED_INCREMENT * k.

(** A duck of the pool between the shoot block and the update loop. *)
Definition duck_in_pool (d : Duck.t) : Prop :=
  Duck.alive d = true /\ Duck.size d = 48 /\
  (Duck.dir d = 1 \/ Duck.dir d = -1) /\
  0 <= Duck.flap_frame d < Duck.FLAP_SPEED /\
  (Duck.hit d = true -> 0 < Duck.hit_timer d <= 20).

(** A duck of the pool at the top of an iteration, the shared speed being
    [sp]. *)
Definition duck_at_top (sp : Z) (d : Duck.t) : Prop :=
  duck_in_pool d /\ Duck.speed d = sp /\
  (Duck.hit d = true -> Duck.hit_timer d < 20).

(** The events on which the process exits. *)
Definition is_quit (ev : event) : bool :=
  match ev with
  | QUIT => true
  | KEYDOWN K_ESCAPE => true
  | _ => false
  end.

(** [update] called once per element of [steps], each with its own [dt]
    and shared speed. *)
Definition updates (sin : Q -> Q) (d : Duck.t) (steps : list (Q * Z))
    : Duck.t :=
  fold_left (fun a s => Duck.update sin a (fst s) (snd s)) steps d.



(** A particle as [Particle.__init__] leaves it: at the given point, its
    life untouched. *)
Definition placed_at (x0 y0 : Q) (p : Particle.t) : Prop :=
  Particle.x p = x0 /\ Particle.y p = y0 /\
  Particle.life p = Particle.max_life p.

(** * Drawing

    The drawing functions are embedded as the list of pygame calls they
    make on the screen surface, in order. *)

Definition rgba : Type := (Z * Z * Z * Z)%type.

Definition DUCK_BODY : color := (210, 140, 30).
Definition DUCK_WING : color := (180, 110, 10).
Definition DUCK_BEAK : color := (255, 180, 0).
Definition DUCK_EYE : color := (10, 10, 10).
Definition DUCK_HIT_COL : color := (255, 80, 80).
Definition CROSSHAIR_COL : color := (255, 50, 50).
Definition CROSSHAIR_OUT : color := (255, 255, 255).
Definition TEXT_COL : color := (255, 255, 255).
Definition TEXT_SHADOW : color := (0, 0, 0).

(** The fonts [main] creates. *)
Inductive font : Type := font_huge | font_big | font_med | font_small.

Inductive cmd : Type :=
| DrawEllipse (c : color) (left top width height : Z)
| DrawPolygon (c : color) (pts : list (Z * Z))
| DrawCircle (c : color) (cx cy radius : Z)
| DrawLine (c : color) (x1 y1 x2 y2 width : Z)
  (** [surf.blit(font.render(text, True, c), (x, y))] *)
| BlitText (text : string) (f : font) (c : color) (x y : Z)
  (** the same for a text whose rectangle is centred on [(cx, cy)],
      blitted [(dx, dy)] off that rectangle *)
| BlitTextCentered (text : string) (f : font) (c : color) (cx cy dx dy : Z)
  (** a new surface of the given size, filled, blitted at [(x, y)] *)
| BlitPanel (width height : Z) (fill : rgba) (x y : Z)
  (** [screen.blit(bg, (0, 0))] *)
| BlitBackground
  (** [pygame.display.flip()] *)
| Flip.

(** [int(q)] on a float: truncation towards zero. *)
Definition py_int (q : Q) : Z := Z.quot (Qnum q) (Zpos (Qden q)).

(** [str(n)] and the format [0wd] on an integer. *)
Definition digits (n : Z) : string :=
  NilZero.string_of_uint (N.to_uint (Z.to_N n)).

Definition py_str (z : Z) : string :=
  if z <? 0 then ("-" ++ digits (- z))%string else digits z.

Definition zero_pad (w : nat) (s : string) : string :=
  (string_of_list_ascii (repeat "0"%char (w - String.length s)) ++ s)%string.

Definition format_0d (w : nat) (z : Z) : string :=
  if z <? 0 then ("-" ++ zero_pad (w - 1) (digits (- z)))%string
  else zero_pad w (digits z).

Definition draw_text (text : string) (f : font) (x y : Z) (c shadow : color)
    (center : bool) : list cmd :=
  if center
  then [BlitTextCentered text f shadow x y 2 2;
        BlitTextCentered text f c x y 0 0]
  else [BlitText text f shadow (x + 2) (y + 2); BlitText text f c x y].

(** [Duck.draw] *)
Definition duck_draw (d : Duck.t) : list cmd :=
  if negb (Duck.alive d) then []
  else
    let x := py_int (Duck.x d) in
    let y := py_int (Duck.y d) in
    let s := Duck.size d in
    let col := if Duck.hit d then DUCK_HIT_COL else DUCK_BODY in
    let wing := if Duck.hit d then DUCK_HIT_COL else DUCK_WING in
    let flip := Duck.dir d =? -1 in
    let side := if negb flip then 1 else -1 in
    let wing_pts :=
      if Duck.wing_up d
      then [(x - s / 4 * side, y - s / 4); (x, y - s / 2);
            (x + s / 4 * side, y - s / 4)]
      else [(x - s / 4 * side, y); (x, y + s / 3);
            (x + s / 4 * side, y)] in
    let hx := x + (s / 3) * Duck.dir d in
    let hy := y - s / 3 in
    let beak_dir := Duck.dir d in
    let beak_pts :=
      [(hx + py_int (inject_Z s * (18 # 100)) * beak_dir, hy);
       (hx + py_int (inject_Z s * (38 # 100)) * beak_dir, hy - 3);
       (hx + py_int (inject_Z s * (38 # 100)) * beak_dir, hy + 3)] in
    let ex := hx + py_int (inject_Z s * (8 # 100)) * beak_dir in
    [DrawEllipse col (x - s / 2) (y - s / 3) s
       (py_int (inject_Z s * (6 # 10)));
     DrawPolygon wing wing_pts;
     DrawCircle col hx hy (s / 5);
     DrawPolygon DUCK_BEAK beak_pts;
     DrawCircle DUCK_EYE ex (hy - 2) 3].

(** [Particle.draw].  [None]: the division [life / max_life] raises
    [ZeroDivisionError]. *)
Definition particle_draw (p : Particle.t) : option (list cmd) :=
  if Qeq_bool (Particle.max_life p) 0 then None
  else
    let q := (Particle.life p / Particle.max_life p)%Q in
    let alpha := if Qlt_bool 0 q then q else 0%Q in
    let r := py_int (inject_Z (Particle.r p) * alpha) in
    if r >? 0
    then Some [DrawCircle (Particle.col p) (py_int (Particle.x p))
                 (py_int (Particle.y p)) r]
    else Some [].

(** [draw_crosshair] *)
Definition draw_crosshair (x y : Z) : list cmd :=
  let size := 22 in
  let gap := 6 in
  let thick := 2 in
  flat_map
    (fun co : color * Z =>
       let (c, offset) := co in
       let w := thick + (if offset =? 0 then 0 else 1) in
       [DrawLine c (x - size) (y + offset) (x - gap) (y + offset) w;
        DrawLine c (x + gap) (y + offset) (x + size) (y + offset) w;
        DrawLine c (x + offset) (y - size) (x + offset) (y - gap) w;
        DrawLine c (x + offset) (y + gap) (x + offset) (y + size) w;
        DrawCircle c x y (3 + (if offset =? 0 then 0 else 1))])
    [(CROSSHAIR_OUT, 2); (CROSSHAIR_COL, 0)].

Definition HEART : string := "♥".
Definition BULLET : string := "•".
Definition HEART_ON : color := (255, 60, 60).
Definition HEART_OFF : color := (80, 80, 80).
Definition BULLET_ON : color := (255, 200, 50).
Definition BULLET_OFF : color := (60, 60, 60).

(** [range(n)] *)
Definition range (n : Z) : list Z := map Z.of_nat (seq 0 (Z.to_nat n)).

(** [draw_hud] *)
Definition draw_hud (score0 lives0 ammo0 : Z) (time_left0 : Q)
    : list cmd :=
  let tc := if Qlt_bool time_left0 10 then (255, 80, 80) else TEXT_COL in
  let lx := WIN_W - 260 in
  let ax := 20 in
  [BlitPanel WIN_W 52 (0, 0, 0, 150) 0 0]
  ++ draw_text ("SCORE  " ++ format_0d 4 score0) font_big 20 8
       (255, 220, 60) TEXT_SHADOW false
  ++ draw_text ("TIME  " ++ format_0d 2 (py_int time_left0) ++ "s") font_big
       (WIN_W / 2) 8 tc TEXT_SHADOW false
  ++ draw_text "LIVES" font_small lx 6 (200, 200, 200) TEXT_SHADOW false
  ++ flat_map
       (fun i =>
          draw_text HEART font_big (lx + 60 + i * 28) 6
            (if i <? lives0 then HEART_ON else HEART_OFF) TEXT_SHADOW false)
       (range STARTING_LIVES)
  ++ draw_text "AMMO" font_small ax 38 (200, 200, 200) TEXT_SHADOW false
  ++ flat_map
       (fun i =>
          draw_text BULLET font_med (ax + 55 + i * 22) 34
            (if i <? ammo0 then BULLET_ON else BULLET_OFF) TEXT_SHADOW false)
       (range STARTING_AMMO).

(** [draw_endscreen] *)
Definition draw_endscreen (score0 : Z) (reason : string) : list cmd :=
  [BlitPanel WIN_W WIN_H (0, 0, 0, 180) 0 0]
  ++ draw_text reason font_huge (WIN_W / 2) (WIN_H / 2 - 120)
       (255, 80, 80) TEXT_SHADOW true
  ++ draw_text ("SCORE: " ++ py_str score0) font_big (WIN_W / 2)
       (WIN_H / 2 - 30) (255, 220, 60) TEXT_SHADOW true
  ++ draw_text "Press R to Restart or ESC to Quit" font_med (WIN_W / 2)
       (WIN_H / 2 + 60) TEXT_COL TEXT_SHADOW true.

(** The particles of the list, drawn in order; [None] as soon as one
    raises. *)
Fixpoint particles_draw (ps : list Particle.t) : option (list cmd) :=
  match ps with
  | [] => Some []
  | p :: rest =>
      match particle_draw p, particles_draw rest with
      | Some c, Some cs => Some (c ++ cs)
      | _, _ => None
      end
  end.

(** The game-over branch of the loop body. *)
Definition over_screen (st : state) : list cmd :=
  [BlitBackground] ++ draw_endscreen (score st) (over_reason st) ++ [Flip].

(** The draw block at the end of the loop body, on the state the tick
    leaves.  [None]: a particle raises. *)
Definition play_screen (st : state) : option (list cmd) :=
  match particles_draw (particles st) with
  | None => None
  | Some ps =>
      Some ([BlitBackground]
            ++ flat_map duck_draw (ducks st)
            ++ ps
            ++ draw_hud (score st) (lives st) (ammo st) (time_left st)
            ++ draw_crosshair (mx st) (my st)
            ++ [Flip])
  end.

(** What one iteration of the loop draws.  [None]: the process exits or
    raises before the screen is flipped. *)
Definition frame_screen (sin cos : Q -> Q) (st : state) (inp : input)
    : option (list cmd) :=
  match process_events (rnd_new_game inp) (events inp) st false with
  | None => None
  | Some (st1, shoot_this_frame) =>
      if game_over st1 then Some (over_screen st1)
      else play_screen (tick sin cos inp shoot_this_frame st1)
  end.

(** How many times a text is blitted in a colour. *)
Definition shows (text : string) (c : color) (cs : list cmd) : nat :=
  List.length
    (filter
       (fun k =>
          match k with
          | BlitText t _ c' _ _ =>
              String.eqb t text
              && (let '(r1, g1, b1) := c' in
                  let '(r2, g2, b2) := c in
                  (r1 =? r2) && (g1 =? g2) && (b1 =? b2))
          | _ => false
          end) cs).

(** * Rounding and the wording of the specification, continued *)

(** The code computes with binary64 floats, the embedding with exact
    rationals.  Statements that compare a float with a bound are given
    with this relative tolerance, far above the rounding of a few float
    operations (about 1e-16 each), so that they hold of both. *)
Definition tol : Q := 1 # 1000000000.

(** The off-screen test as the specification words it: [x] beyond twice
    the half-width outside either horizontal edge, the duck being as wide
    as its body is drawn ([size] pixels). *)
Definition half_width (d : Duck.t) : Q := (inject_Z (Duck.size d) / 2)%Q.

Definition spec_offscreen (d : Duck.t) : Prop :=
  (Duck.x d < - (2 * half_width d)
   \/ inject_Z WIN_W + 2 * half_width d < Duck.x d)%Q.

(** A flying duck 87 pixels beyond the right edge, heading right. *)
Definition duck_near_right : Duck.t := duck_at_100_x 1367.

(** One shot fired after [aim_left], the ducks under the reticle. *)
Definition aimed : state := after aim_left.

(** * Numbers *)

(** Splitting conjunctions only, and closing a goal by evaluation. *)
Ltac conjs := repeat match goal with |- _ /\ _ => split end.
Ltac by_run := vm_compute; reflexivity.

Lemma Qlt_bool_iff (a b : Q) : Qlt_bool a b = true <-> (a < b)%Q.
Proof. unfold Qlt_bool, Qlt. apply Z.ltb_lt. Qed.

Lemma Qlt_bool_false_iff (a b : Q) : Qlt_bool a b = false <-> (b <= a)%Q.
Proof. unfold Qlt_bool, Qle. rewrite Z.ltb_ge. reflexivity. Qed.

(** * Properties of [Duck] *)

Lemma flying_lifecycle (d : Duck.t) :
  Duck.flying d = true <-> Duck.lifecycle_of d = Duck.Flying.
Proof.
  unfold Duck.flying, Duck.lifecycle_of.
  destruct (Duck.alive d), (Duck.hit d); simpl; split; congruence.
Qed.

Lemma is_offscreen_iff (d : Duck.t) :
  Duck.is_offscreen d = true <->
  (Duck.x d < inject_Z (- (2 * Duck.size d))
   \/ inject_Z (WIN_W + 2 * Duck.size d) < Duck.x d)%Q.
Proof.
  unfold Duck.is_offscreen.
  rewrite orb_true_iff, !Qlt_bool_iff.
  replace (- Duck.size d * 2) with (- (2 * Duck.size d)) by lia.
  replace (Duck.size d * 2) with (2 * Duck.size d) by lia.
  reflexivity.
Qed.

(** C8.  [shoot] on a duck that is not Flying returns [False] and leaves
    the duck as it is; on a Flying duck it returns [True], the duck becomes
    Hit, [hit_timer] is the constant 20 and no other field changes.  The
    timer counts calls of [update]: each call on a Hit duck lowers it by
    exactly one, whatever [dt]. *)
Theorem shoot_flying_only (d : Duck.t) :
  (Duck.lifecycle_of d <> Duck.Flying -> Duck.shoot d = (d, false)) /\
  (Duck.lifecycle_of d = Duck.Flying ->
   snd (Duck.shoot d) = true /\
   Duck.lifecycle_of (fst (Duck.shoot d)) = Duck.Hit /\
   Duck.hit_timer (fst (Duck.shoot d)) = 20 /\
   fst (Duck.shoot d)
   = Duck.mk (Duck.speed d) (Duck.size d) (Duck.dir d) (Duck.x d) (Duck.y d)
       (Duck.wave_amp d) (Duck.wave_freq d) (Duck.base_y d) (Duck.time d)
       (Duck.alive d) true 20 (Duck.flap_frame d) (Duck.wing_up d)) /\
  (forall (sin : Q -> Q) (dt : Q) (sp : Z),
     Duck.lifecycle_of d = Duck.Hit ->
     Duck.hit_timer (Duck.update sin d dt sp) = Duck.hit_timer d - 1).
Proof.
  unfold Duck.lifecycle_of, Duck.shoot, Duck.update.
  destruct (Duck.alive d) eqn:Ha, (Duck.hit d) eqn:Hh; simpl;
    rewrite ?Ha, ?Hh; simpl;
    repeat split; intros; try reflexivity; congruence.
Qed.

(** * The hitbox *)

(** C5, as stated, fails: the point 43 pixels right of the centre of a
    duck of size 48 collides, and is far outside a box of total width
    0.9 x 48 = 43.2. *)
Lemma collides_outside_spec_box :
  Duck.collides duck_at_100 (143 # 1) (100 # 1) = true /\
  ~ in_spec_box duck_at_100 (143 # 1) (100 # 1).
Proof.
  split; [reflexivity|].
  unfold in_spec_box. intros [H _]. vm_compute in H. apply H. reflexivity.
Qed.

(** C5, amended.  [collides] is the test of an open axis-aligned box
    centred on the duck whose half-width is about 0.9 x size and whose
    half-height is about 0.6 x size (about 1.8 x size by 1.2 x size in
    all).  A point for which it answers true is within [(1 + tol)] times
    these half extents of the centre; for a duck of positive size it
    answers true for every point within [(1 - tol)] times them.  Both
    bounds leave room for the rounding of [size * 0.9], [size * 0.6] and
    of the two differences in the code's floats.  The shot loop never
    acts on the test for a duck that is not Flying: such a duck is
    skipped and stays as it is, wherever the reticle is. *)
Theorem collides_generous_box (d : Duck.t) (px py : Q) :
  (Duck.collides d px py = true ->
   (Qabs (px - Duck.x d) < (1 + tol) * ((9 # 10) * inject_Z (Duck.size d))
    /\ Qabs (py - Duck.y d)
       < (1 + tol) * ((6 # 10) * inject_Z (Duck.size d)))%Q) /\
  (0 < Duck.size d ->
   (Qabs (px - Duck.x d)
    <= (1 - tol) * ((9 # 10) * inject_Z (Duck.size d)))%Q ->
   (Qabs (py - Duck.y d)
    <= (1 - tol) * ((6 # 10) * inject_Z (Duck.size d)))%Q ->
   Duck.collides d px py = true) /\
  (forall rest : list Duck.t,
     Duck.lifecycle_of d <> Duck.Flying ->
     shoot_scan (d :: rest) px py
     = (d :: fst (shoot_scan rest px py), snd (shoot_scan rest px py))).
Proof.
  split; [|split].
  - unfold Duck.collides, Duck.hw, Duck.hh, tol.
    rewrite andb_true_iff, !Qlt_bool_iff. intros [Hx Hy].
    pose proof (Qabs_nonneg (px - Duck.x d)) as Hx0.
    pose proof (Qabs_nonneg (py - Duck.y d)) as Hy0.
    split; lra.
  - intros Hsize Hx Hy.
    assert (Hs : (0 < inject_Z (Duck.size d))%Q)
      by (change 0%Q with (inject_Z 0); rewrite <- Zlt_Qlt; exact Hsize).
    unfold Duck.collides, Duck.hw, Duck.hh, tol in *.
    rewrite andb_true_iff, !Qlt_bool_iff. split; lra.
  - intros rest Hnf. simpl.
    assert (Hf : Duck.alive d && negb (Duck.hit d) = false).
    { destruct (Duck.alive d && negb (Duck.hit d)) eqn:E; [|reflexivity].
      exfalso. apply Hnf. apply flying_lifecycle. exact E. }
    rewrite Hf. simpl. destruct (shoot_scan rest px py). reflexivity.
Qed.

Lemma collides_generous_box_witness :
  Duck.collides duck_at_100 (130 # 1) (100 # 1) = true /\
  shoot_scan [fst (Duck.shoot duck_at_100)] (100 # 1) (100 # 1)
  = ([fst (Duck.shoot duck_at_100)], None).
Proof.
  split.
  - apply (collides_generous_box duck_at_100 (130 # 1) (100 # 1)).
    + reflexivity.
    + vm_compute. discriminate.
    + vm_compute. discriminate.
  - apply (proj2 (proj2 (collides_generous_box
                           (fst (Duck.shoot duck_at_100))
                           (100 # 1) (100 # 1))) []).
    discriminate.
Defined.

Lemma shoot_flying_only_witness :
  Duck.lifecycle_of duck_at_100 = Duck.Flying /\
  snd (Duck.shoot duck_at_100) = true /\
  Duck.hit_timer (fst (Duck.shoot duck_at_100)) = 20 /\
  Duck.shoot (fst (Duck.shoot duck_at_100))
  = (fst (Duck.shoot duck_at_100), false).
Proof.
  split; [reflexivity|].
  destruct (shoot_flying_only duck_at_100) as [_ [H _]].
  destruct (H eq_refl) as [H1 [_ [H2 _]]].
  split; [exact H1|]. split; [exact H2|].
  apply (proj1 (shoot_flying_only (fst (Duck.shoot duck_at_100)))).
  discriminate.
Defined.

(** * The stages of one tick *)

Lemma process_events_playing (g : nat -> Duck.rnd) (evs : list event) :
  forall (st st' : state) (b b' : bool),
    game_over st = false ->
    process_events g evs st b = Some (st', b') ->
    st' = st /\ b' = b || existsb is_click evs.
Proof.
  induction evs as [|ev rest IH]; intros st st' b b' Hgo H; simpl in *.
  - inversion H; subst. now rewrite orb_false_r.
  - destruct ev as [|[| |]|button|]; try discriminate;
      rewrite ?Hgo in H; simpl in H.
    + apply IH in H; assumption.
    + apply IH in H; assumption.
    + rewrite andb_true_r in H. unfold is_click at 1.
      destruct (button =? 1); simpl in *.
      * apply IH in H; [|assumption]. destruct H as [-> ->].
        split; [reflexivity|]. destruct b; reflexivity.
      * apply IH in H; assumption.
    + apply IH in H; assumption.
Qed.

Lemma process_events_over (g : nat -> Duck.rnd) (evs : list event) :
  forall (st st' : state) (b b' : bool),
    game_over st = true ->
    existsb is_restart evs = false ->
    process_events g evs st b = Some (st', b') ->
    st' = st /\ b' = b.
Proof.
  induction evs as [|ev rest IH]; intros st st' b b' Hgo Hr H; simpl in *.
  - inversion H; subst. split; reflexivity.
  - destruct ev as [|[| |]|button|]; try discriminate; simpl in Hr;
      rewrite ?Hgo in H; simpl in H.
    + apply IH in H; assumption.
    + rewrite andb_false_r in H. apply IH in H; assumption.
    + apply IH in H; assumption.
Qed.

Lemma process_events_state (g : nat -> Duck.rnd) (evs : list event) :
  forall (st st' : state) (b b' : bool),
    process_events g evs st b = Some (st', b') ->
    st' = st \/ st' = new_game g.
Proof.
  induction evs as [|ev rest IH]; intros st st' b b' H; simpl in *.
  - inversion H; subst. left; reflexivity.
  - destruct ev as [|[| |]|button|]; try discriminate.
    + destruct (game_over st) eqn:Hgo.
      * apply IH in H. destruct H as [H|H]; right; exact H.
      * apply IH in H. exact H.
    + apply IH in H; exact H.
    + destruct ((button =? 1) && negb (game_over st));
        apply IH in H; exact H.
    + apply IH in H; exact H.
Qed.

Lemma new_game_Inv (g : nat -> Duck.rnd) : Inv (new_game g).
Proof.
  constructor; simpl.
  - unfold STARTING_AMMO. lia.
  - unfold STARTING_LIVES. lia.
  - discriminate.
  - split; [discriminate | reflexivity].
  - split; [discriminate | reflexivity].
  - left. split; reflexivity.
  - reflexivity.
  - intros _. reflexivity.
Qed.

Lemma mouse_stage_reticle (inp : input) (st : state) :
  0 <= mx (mouse_stage inp st) < WIN_W /\
  0 <= my (mouse_stage inp st) < WIN_H.
Proof. unfold mouse_stage, WIN_W, WIN_H. simpl. lia. Qed.

Lemma timer_stage_time (dt : Q) (st : state) :
  (0 <= time_left (timer_stage dt st))%Q.
Proof.
  unfold timer_stage.
  destruct (Qle_bool (time_left st - dt) 0) eqn:E; simpl.
  - apply Qle_refl.
  - apply Qlt_le_weak. apply Qnot_le_lt. intros H.
    apply Qle_bool_iff in H. congruence.
Qed.

Lemma timer_stage_reason (dt : Q) (st : state) :
  reason_ok st -> reason_ok (timer_stage dt st).
Proof.
  unfold timer_stage, reason_ok.
  destruct (Qle_bool (time_left st - dt) 0); simpl; [|tauto].
  intros _. right. split; [reflexivity|]. exists TimeUp. reflexivity.
Qed.

Lemma ammo_stage_reason (st : state) :
  reason_ok st -> reason_ok (ammo_stage st).
Proof.
  unfold ammo_stage, reason_ok.
  destruct (ammo st =? 0); [|tauto].
  destruct (alive_count (ducks st) =? MAX_DUCKS); simpl; [|tauto].
  intros _. right. split; [reflexivity|]. exists OutOfAmmo. reflexivity.
Qed.

Lemma shoot_scan_length (px py : Q) (ds : list Duck.t) :
  List.length (fst (shoot_scan ds px py)) = List.length ds.
Proof.
  induction ds as [|d rest IH]; simpl; [reflexivity|].
  destruct (Duck.alive d && negb (Duck.hit d) && Duck.collides d px py);
    simpl; [reflexivity|].
  destruct (shoot_scan rest px py); simpl in *. now rewrite IH.
Qed.

Lemma loop_inv_refl (st : state) : 0 < lives st -> loop_inv st st.
Proof. intros H. unfold loop_inv. repeat split; try lia. left. tauto. Qed.

Section Loop.
Variable sin : Q -> Q.

Lemma duck_step_loop_inv (st0 : state) (dt : Q) (r : Duck.rnd)
    (st : state) (d : Duck.t) :
  loop_inv st0 st -> loop_inv st0 (fst (duck_step sin dt r st d)).
Proof.
  unfold duck_step.
  destruct (escaped (Duck.update sin d dt (speed st))); simpl.
  - unfold loop_inv.
    intros (Hs & Ha & Ht & Hsp & Hd & Hp & Hx & Hy & Hb & Hl & Hc).
    destruct (lives st - 1 <=? 0) eqn:E; simpl;
      [apply Z.leb_le in E | apply Z.leb_gt in E];
      repeat split; try assumption; try lia.
    + right. repeat split.
    + left. repeat split; try lia;
        destruct Hc as [(? & ? & ?)|(? & ? & ?)]; try assumption; lia.
  - destruct (negb (Duck.alive (Duck.update sin d dt (speed st))));
      simpl; tauto.
Qed.

Lemma update_ducks_pres (P : state -> Prop) (dt : Q)
    (g : nat -> Duck.rnd) :
  (forall r st d, P st -> P (fst (duck_step sin dt r st d))) ->
  forall ds i st, P st -> P (fst (update_ducks sin dt g i ds st)).
Proof.
  intros Hstep. induction ds as [|d rest IH]; intros i st HP; simpl.
  - exact HP.
  - destruct (duck_step sin dt (g i) st d) as [st1 d1] eqn:E1.
    destruct (update_ducks sin dt g (S i) rest st1) as [st2 rest1] eqn:E2.
    simpl. specialize (IH (S i) st1). rewrite E2 in IH. apply IH.
    specialize (Hstep (g i) st d HP). rewrite E1 in Hstep. exact Hstep.
Qed.

Lemma update_ducks_loop_inv (dt : Q) (g : nat -> Duck.rnd) (i : nat)
    (ds : list Duck.t) (st : state) :
  0 < lives st -> loop_inv st (fst (update_ducks sin dt g i ds st)).
Proof.
  intros H. apply update_ducks_pres.
  - intros r st1 d. apply duck_step_loop_inv.
  - apply loop_inv_refl. exact H.
Qed.

Lemma update_ducks_length (dt : Q) (g : nat -> Duck.rnd) :
  forall ds i st,
    List.length (snd (update_ducks sin dt g i ds st)) = List.length ds.
Proof.
  induction ds as [|d rest IH]; intros i st; simpl; [reflexivity|].
  destruct (duck_step sin dt (g i) st d) as [st1 d1].
  specialize (IH (S i) st1).
  destruct (update_ducks sin dt g (S i) rest st1). simpl in *.
  now rewrite IH.
Qed.

End Loop.

Lemma timer_stage_frame (dt : Q) (st : state) :
  score (timer_stage dt st) = score st /\
  lives (timer_stage dt st) = lives st /\
  ammo (timer_stage dt st) = ammo st /\
  speed (timer_stage dt st) = speed st /\
  ducks (timer_stage dt st) = ducks st /\
  particles (timer_stage dt st) = particles st /\
  mx (timer_stage dt st) = mx st /\
  my (timer_stage dt st) = my st.
Proof.
  unfold timer_stage.
  destruct (Qle_bool (time_left st - dt) 0); simpl; repeat split.
Qed.

Lemma mouse_stage_frame (inp : input) (st : state) :
  score (mouse_stage inp st) = score st /\
  lives (mouse_stage inp st) = lives st /\
  ammo (mouse_stage inp st) = ammo st /\
  time_left (mouse_stage inp st) = time_left st /\
  speed (mouse_stage inp st) = speed st /\
  ducks (mouse_stage inp st) = ducks st /\
  particles (mouse_stage inp st) = particles st /\
  game_over (mouse_stage inp st) = game_over st /\
  over_reason (mouse_stage inp st) = over_reason st.
Proof. unfold mouse_stage. simpl. repeat split. Qed.

Lemma ammo_stage_frame (st : state) :
  score (ammo_stage st) = score st /\
  lives (ammo_stage st) = lives st /\
  ammo (ammo_stage st) = ammo st /\
  time_left (ammo_stage st) = time_left st /\
  speed (ammo_stage st) = speed st /\
  ducks (ammo_stage st) = ducks st /\
  particles (ammo_stage st) = particles st /\
  mx (ammo_stage st) = mx st /\
  my (ammo_stage st) = my st.
Proof.
  unfold ammo_stage.
  destruct (ammo st =? 0); [|repeat split].
  destruct (alive_count (ducks st) =? MAX_DUCKS); simpl; repeat split.
Qed.

Section Shot.
Variables sin cos : Q -> Q.

Lemma shoot_stage_frame (b : bool) (g : nat -> Particle.rnd)
    (st : state) :
  lives (shoot_stage sin cos b g st) = lives st /\
  time_left (shoot_stage sin cos b g st) = time_left st /\
  game_over (shoot_stage sin cos b g st) = game_over st /\
  over_reason (shoot_stage sin cos b g st) = over_reason st /\
  mx (shoot_stage sin cos b g st) = mx st /\
  my (shoot_stage sin cos b g st) = my st /\
  List.length (ducks (shoot_stage sin cos b g st))
  = List.length (ducks st).
Proof.
  unfold shoot_stage.
  destruct (b && (ammo st >? 0)); [|repeat split].
  simpl.
  pose proof (shoot_scan_length (inject_Z (mx st)) (inject_Z (my st))
                (ducks st)) as Hlen.
  destruct (shoot_scan (ducks st) (inject_Z (mx st)) (inject_Z (my st)))
    as [ds [h|]]; simpl in *; repeat split; exact Hlen.
Qed.

(** The shoot block when it runs: what it does to each key. *)
Lemma shoot_stage_fired (g : nat -> Particle.rnd) (st : state) :
  0 < ammo st ->
  let px := inject_Z (mx st) in
  let py := inject_Z (my st) in
  let st' := shoot_stage sin cos true g st in
  ammo st' = ammo st - 1 /\
  ducks st' = fst (shoot_scan (ducks st) px py) /\
  match snd (shoot_scan (ducks st) px py) with
  | Some d =>
      score st' = score st + 100 /\
      speed st' = Z.min (speed st + SPEED_INCREMENT) MAX_SPEED /\
      particles st'
      = (particles st ++ burst sin cos g 0 18 (Duck.x d) (Duck.y d))
        ++ burst sin cos g 18 8 px py
  | None =>
      score st' = score st /\
      speed st' = speed st /\
      particles st' = particles st ++ burst sin cos g 0 8 px py
  end.
Proof.
  intros Hammo px py st'. subst st' px py. unfold shoot_stage.
  assert (E : (ammo st >? 0) = true) by (apply Z.gtb_lt; lia).
  rewrite E. simpl.
  destruct (shoot_scan (ducks st) (inject_Z (mx st)) (inject_Z (my st)))
    as [ds [h|]]; simpl; repeat split.
Qed.

(** The shoot block when it does not run. *)
Lemma shoot_stage_idle (b : bool) (g : nat -> Particle.rnd) (st : state) :
  b = false \/ ammo st <= 0 -> shoot_stage sin cos b g st = st.
Proof.
  intros H. unfold shoot_stage.
  assert (E : b && (ammo st >? 0) = false).
  { destruct H as [-> | H]; [reflexivity|].
    apply andb_false_iff. right.
    destruct (ammo st >? 0) eqn:G; [|reflexivity].
    apply Z.gtb_lt in G. lia. }
  now rewrite E.
Qed.

Lemma shoot_stage_ammo (b : bool) (g : nat -> Particle.rnd) (st : state) :
  0 <= ammo st ->
  0 <= ammo (shoot_stage sin cos b g st) <= ammo st /\
  score st <= score (shoot_stage sin cos b g st).
Proof.
  intros H0.
  destruct b.
  - destruct (Z.eq_dec (ammo st) 0) as [E|E].
    + rewrite shoot_stage_idle by (right; lia). lia.
    + destruct (shoot_stage_fired g st) as (Ha & _ & Hs); [lia|].
      rewrite Ha. split; [lia|].
      destruct (snd (shoot_scan (ducks st) (inject_Z (mx st))
                       (inject_Z (my st)))); destruct Hs as [-> _]; lia.
  - rewrite shoot_stage_idle by (left; reflexivity). lia.
Qed.

(** The five stages keep the invariant of a running game. *)
Lemma tick_Inv (inp : input) (b : bool) (st : state) :
  Inv st -> game_over st = false -> Inv (tick sin cos inp b st).
Proof.
  intros HI Hgo. unfold tick, particles_stage, ducks_stage.
  set (st1 := mouse_stage inp st).
  set (st2 := timer_stage (dt_of inp) st1).
  set (st3 := shoot_stage sin cos b (rnd_particle inp) st2).
  set (st4 := ammo_stage st3).
  destruct (mouse_stage_frame inp st)
    as (_ & Hl1 & Ha1 & _ & _ & Hd1 & _ & Hg1 & Hr1).
  destruct (timer_stage_frame (dt_of inp) st1)
    as (_ & Hl2 & Ha2 & _ & Hd2 & _ & Hx2 & Hy2).
  destruct (shoot_stage_frame b (rnd_particle inp) st2)
    as (Hl3 & Ht3 & Hg3 & Hr3 & Hx3 & Hy3 & Hd3).
  destruct (ammo_stage_frame st3)
    as (_ & Hl4 & Ha4 & Ht4 & _ & Hd4 & _ & Hx4 & Hy4).
  fold st1 in Hl1, Ha1, Hd1, Hg1, Hr1.
  fold st2 in Hl2, Ha2, Hd2, Hx2, Hy2, Hl3, Ht3, Hg3, Hr3, Hx3, Hy3, Hd3.
  fold st3 in Hl3, Ht3, Hg3, Hr3, Hx3, Hy3, Hd3, Hl4, Ha4, Ht4, Hd4,
    Hx4, Hy4.
  fold st4 in Hl4, Ha4, Ht4, Hd4, Hx4, Hy4.
  assert (Hlives : lives st4 = lives st) by congruence.
  assert (Hpos : 0 < lives st4)
    by (rewrite Hlives; apply (inv_playing st HI Hgo)).
  assert (Hreason : reason_ok st4).
  { apply ammo_stage_reason. unfold reason_ok.
    rewrite Hg3, Hr3. apply timer_stage_reason. unfold reason_ok.
    rewrite Hg1, Hr1. apply (inv_reason st HI). }
  pose proof (update_ducks_loop_inv sin (dt_of inp) (rnd_reset inp) 0%nat
                (ducks st4) st4 Hpos) as HL.
  pose proof (update_ducks_length sin (dt_of inp) (rnd_reset inp)
                (ducks st4) 0%nat st4) as Hlen.
  destruct (update_ducks sin (dt_of inp) (rnd_reset inp) 0 (ducks st4) st4)
    as [st5 ds5]. simpl in HL, Hlen.
  destruct HL as (Hs & Ha & Ht & Hsp & Hd & Hp & Hx & Hy & Hb & Hl & Hc).
  pose proof (shoot_stage_ammo b (rnd_particle inp) st2) as Hammo.
  fold st3 in Hammo.
  pose proof (inv_ammo st HI) as HA. pose proof (inv_lives st HI) as HLv.
  constructor; simpl.
  - rewrite Ha, Ha4. rewrite Ha2, Ha1 in Hammo. lia.
  - destruct Hc as [(? & _)|(? & _)]; lia.
  - rewrite Ht, Ht4, Ht3. apply timer_stage_time.
  - rewrite Hx, Hx4, Hx3, Hx2. apply mouse_stage_reticle.
  - rewrite Hy, Hy4, Hy3, Hy2. apply mouse_stage_reticle.
  - unfold reason_ok. simpl.
    destruct Hc as [(_ & -> & ->)|(_ & -> & ->)]; [exact Hreason|].
    right. split; [reflexivity|]. exists NoLivesLeft. reflexivity.
  - rewrite Hlen, Hd4, Hd3, Hd2, Hd1. apply (inv_pool st HI).
  - destruct Hc as [(? & _)|(_ & -> & _)]; [intros _; assumption|].
    discriminate.
Qed.

Lemma frame_Inv (st st' : state) (inp : input) :
  Inv st -> frame sin cos st inp = Some st' -> Inv st'.
Proof.
  intros HI. unfold frame.
  destruct (process_events (rnd_new_game inp) (events inp) st false)
    as [[st1 b]|] eqn:E; [|discriminate].
  assert (HI1 : Inv st1).
  { apply process_events_state in E. destruct E as [-> | ->];
      [exact HI | apply new_game_Inv]. }
  destruct (game_over st1) eqn:Hgo; intros H; inversion H; subst.
  - exact HI1.
  - apply tick_Inv; assumption.
Qed.

Lemma reachable_Inv (st : state) : reachable sin cos st -> Inv st.
Proof.
  induction 1 as [g | st st' inp _ IH H].
  - apply new_game_Inv.
  - apply (frame_Inv st st' inp IH H).
Qed.

Lemma run_reachable (inps : list input) :
  forall st st' : state,
    reachable sin cos st -> run sin cos st inps = Some st' ->
    reachable sin cos st'.
Proof.
  induction inps as [|inp rest IH]; intros st st' Hr H; simpl in H.
  - inversion H; subst. exact Hr.
  - destruct (frame sin cos st inp) as [st1|] eqn:E; [|discriminate].
    apply (IH st1 st'); [|exact H].
    apply (reachable_frame sin cos st st1 inp Hr E).
Qed.

End Shot.

(** * Statements about the loop *)

Section Claims.
Variables sin cos : Q -> Q.

Lemma frame_playing (st st' : state) (inp : input) :
  game_over st = false ->
  frame sin cos st inp = Some st' ->
  st' = tick sin cos inp (existsb is_click (events inp)) st.
Proof.
  intros Hgo. unfold frame.
  destruct (process_events (rnd_new_game inp) (events inp) st false)
    as [[st1 b]|] eqn:E; [|discriminate].
  apply process_events_playing in E; [|exact Hgo].
  destruct E as [-> ->]. rewrite Hgo. simpl. congruence.
Qed.

(** C4.  In every state the loop reaches, hence after every tick,
    [0 <= ammo <= STARTING_AMMO], [0 <= lives <= STARTING_LIVES] and
    [time_left >= 0]. *)
Theorem resources_bounded (st : state) :
  reachable sin cos st ->
  0 <= ammo st <= STARTING_AMMO /\
  0 <= lives st <= STARTING_LIVES /\
  (0 <= time_left st)%Q.
Proof.
  intros H. apply reachable_Inv in H.
  split; [apply (inv_ammo st H)|].
  split; [apply (inv_lives st H) | apply (inv_time st H)].
Qed.

(** C10.  Whatever the pointer deltas (and the other inputs) of the
    iterations run so far, the reticle is inside the play field:
    [0 <= mx < WIN_W] and [0 <= my < WIN_H]. *)
Theorem reticle_in_field (g : nat -> Duck.rnd) (inps : list input)
    (st : state) :
  run sin cos (new_game g) inps = Some st ->
  0 <= mx st < WIN_W /\ 0 <= my st < WIN_H.
Proof.
  intros H.
  apply run_reachable in H; [|apply reachable_new_game].
  apply reachable_Inv in H.
  split; [apply (inv_mx st H) | apply (inv_my st H)].
Qed.

End Claims.

Lemma after_reachable (inps : list input) : reachable flat flat (after inps).
Proof.
  unfold after.
  destruct (run flat flat (new_game rnd_duck) inps) as [st|] eqn:E.
  - apply (run_reachable flat flat inps (new_game rnd_duck) st);
      [apply reachable_new_game | exact E].
  - apply reachable_new_game.
Qed.

Lemma resources_bounded_witness :
  0 <= ammo (after nine_misses) <= STARTING_AMMO /\
  0 <= lives (after nine_misses) <= STARTING_LIVES /\
  (0 <= time_left (after nine_misses))%Q.
Proof.
  apply (resources_bounded flat flat (after nine_misses)).
  apply after_reachable.
Defined.

Lemma reticle_in_field_witness :
  0 <= mx (after [mk_input 16 [] (5000, -5000) rnd_duck rnd_duck rnd_part])
    < WIN_W /\
  0 <= my (after [mk_input 16 [] (5000, -5000) rnd_duck rnd_duck rnd_part])
    < WIN_H.
Proof.
  apply (reticle_in_field flat flat rnd_duck
           [mk_input 16 [] (5000, -5000) rnd_duck rnd_duck rnd_part]).
  vm_compute. reflexivity.
Defined.

Section Tick.
Variables sin cos : Q -> Q.

(** Every key of the state after a tick, from the state in which the
    ducks are updated. *)
Lemma tick_fields (inp : input) (b : bool) (st : state) :
  0 < lives st ->
  let st4 := after_ammo_check sin cos inp b st in
  let st' := tick sin cos inp b st in
  score st' = score st4 /\ ammo st' = ammo st4 /\
  time_left st' = time_left st4 /\ speed st' = speed st4 /\
  mx st' = mx st4 /\ my st' = my st4 /\
  lives st' <= lives st /\ lives st4 = lives st /\
  ((0 < lives st' /\ game_over st' = game_over st4
    /\ over_reason st' = over_reason st4)
   \/ (lives st' = 0 /\ game_over st' = true
       /\ over_reason st' = GAME_OVER)) /\
  particles st'
  = map (fun p => Particle.update p (dt_of inp))
      (filter (fun p => Qlt_bool 0 (Particle.life p)) (particles st4)) /\
  ducks st'
  = snd (update_ducks sin (dt_of inp) (rnd_reset inp) 0 (ducks st4) st4).
Proof.
  intros Hpos st4 st'. subst st'.
  unfold tick, particles_stage, ducks_stage.
  change (ammo_stage
            (shoot_stage sin cos b (rnd_particle inp)
               (timer_stage (dt_of inp) (mouse_stage inp st))))
    with st4.
  assert (Hlives : lives st4 = lives st).
  { unfold st4, after_ammo_check, after_shot, before_shot.
    destruct (ammo_stage_frame
                (shoot_stage sin cos b (rnd_particle inp)
                   (timer_stage (dt_of inp) (mouse_stage inp st))))
      as (_ & -> & _).
    destruct (shoot_stage_frame sin cos b (rnd_particle inp)
                (timer_stage (dt_of inp) (mouse_stage inp st)))
      as (-> & _).
    destruct (timer_stage_frame (dt_of inp) (mouse_stage inp st))
      as (_ & -> & _).
    apply (mouse_stage_frame inp st). }
  assert (Hpos4 : 0 < lives st4) by lia.
  pose proof (update_ducks_loop_inv sin (dt_of inp) (rnd_reset inp) 0%nat
                (ducks st4) st4 Hpos4) as HL.
  destruct (update_ducks sin (dt_of inp) (rnd_reset inp) 0 (ducks st4) st4)
    as [st5 ds5]. simpl in *.
  destruct HL as (Hs & Ha & Ht & Hsp & Hd & Hp & Hx & Hy & Hb & Hl & Hc).
  rewrite Hp. repeat split; try assumption; lia.
Qed.

Lemma after_shot_frame (inp : input) (b : bool) (st : state) :
  game_over (after_shot sin cos inp b st) = game_over (before_shot inp st)
  /\ over_reason (after_shot sin cos inp b st)
     = over_reason (before_shot inp st).
Proof.
  unfold after_shot.
  destruct (shoot_stage_frame sin cos b (rnd_particle inp)
              (before_shot inp st)) as (_ & _ & Hg & Hr & _).
  split; assumption.
Qed.

(** C3, amended.  In every state the loop reaches, [over_reason] is set
    (not the empty string) exactly when [game_over] holds, and it is then
    one of the three end reasons.  Once [game_over] holds, an iteration
    leaves the state as it is unless [R] is among its events.  In the
    tick that ends the round the three termination tests run one after
    the other without looking at [game_over], and the last one that
    fires wins: running out of lives over running out of ammo over the
    timer. *)
Theorem end_reason_last_writer (st : state) :
  reachable sin cos st ->
  (game_over st = true <-> over_reason st <> EmptyString) /\
  (game_over st = true -> exists e, over_reason st = reason_string e) /\
  (forall (inp : input) (st' : state),
     game_over st = true ->
     frame sin cos st inp = Some st' ->
     st' = st \/ existsb is_restart (events inp) = true) /\
  (forall (inp : input) (b : bool),
     game_over st = false ->
     let st2 := before_shot inp st in
     let st3 := after_shot sin cos inp b st in
     let st4 := after_ammo_check sin cos inp b st in
     let st' := tick sin cos inp b st in
     over_reason st2
     = (if Qle_bool (time_left st - dt_of inp) 0 then TIMES_UP
        else EmptyString) /\
     over_reason st4
     = (if (ammo st3 =? 0) && (alive_count (ducks st3) =? MAX_DUCKS)
        then OUT_OF_AMMO else over_reason st2) /\
     over_reason st'
     = (if lives st' =? 0 then GAME_OVER else over_reason st4)).
Proof.
  intros Hr. pose proof (reachable_Inv sin cos st Hr) as HI.
  pose proof (inv_reason st HI) as Hreason.
  split; [|split; [|split]].
  - destruct Hreason as [[Hg Hs]|[Hg [e He]]]; rewrite Hg.
    + rewrite Hs. split; [discriminate | congruence].
    + rewrite He. split; [|reflexivity]. intros _.
      destruct e; discriminate.
  - intros Hg. destruct Hreason as [[Hg' _]|[_ He]]; [congruence|exact He].
  - intros inp st' Hg Hf.
    destruct (existsb is_restart (events inp)) eqn:E; [right; reflexivity|].
    left. unfold frame in Hf.
    destruct (process_events (rnd_new_game inp) (events inp) st false)
      as [[st1 b]|] eqn:P; [|discriminate].
    apply process_events_over in P; [|assumption|assumption].
    destruct P as [-> ->]. rewrite Hg in Hf. congruence.
  - intros inp b Hg st2 st3 st4 st'.
    assert (Hempty : over_reason st = EmptyString).
    { destruct Hreason as [[_ Hs]|[Hg' _]]; [exact Hs|congruence]. }
    split; [|split].
    + unfold st2, before_shot, timer_stage.
      destruct (mouse_stage_frame inp st)
        as (_ & _ & _ & Ht & _ & _ & _ & _ & Ho).
      rewrite Ht.
      destruct (Qle_bool (time_left st - dt_of inp) 0); simpl;
        [reflexivity|]. rewrite <- Hempty. exact Ho.
    + unfold st4, after_ammo_check, ammo_stage. fold st3.
      destruct (after_shot_frame inp b st) as [_ Ho]. fold st3 st2 in Ho.
      destruct (ammo st3 =? 0); simpl; [|exact Ho].
      destruct (alive_count (ducks st3) =? MAX_DUCKS); simpl;
        [reflexivity | exact Ho].
    + destruct (tick_fields inp b st (inv_playing st HI Hg))
        as (_ & _ & _ & _ & _ & _ & _ & _ & Hc & _).
      fold st4 st' in Hc.
      destruct Hc as [(Hl & _ & Ho)|(Hl & _ & Ho)].
      * replace (lives st' =? 0) with false
          by (symmetry; apply Z.eqb_neq; lia). exact Ho.
      * rewrite Hl. exact Ho.
Qed.

End Tick.

(** C3, as stated, fails: an end reason is overwritten within the tick
    that sets it.  After nine missed shots, an iteration of 60 s with a
    shot sets [over_reason] to "TIME'S UP!" in the timer block; the shot
    then empties the clip with the three ducks flying, and the iteration
    ends with "OUT OF AMMO!". *)
Lemma end_reason_overwritten :
  reachable flat flat (after nine_misses) /\
  game_over (after nine_misses) = false /\
  over_reason (before_shot (input_of 60000 click) (after nine_misses))
  = TIMES_UP /\
  frame flat flat (after nine_misses) (input_of 60000 click)
  = Some (after (nine_misses ++ [input_of 60000 click])) /\
  game_over (after (nine_misses ++ [input_of 60000 click])) = true /\
  over_reason (after (nine_misses ++ [input_of 60000 click])) = OUT_OF_AMMO.
Proof.
  split; [apply after_reachable|].
  conjs; by_run.
Qed.

Lemma end_reason_last_writer_witness :
  game_over (after (nine_misses ++ [input_of 60000 click])) = true /\
  over_reason (after (nine_misses ++ [input_of 60000 click]))
  <> EmptyString /\
  forall st' : state,
    frame flat flat (after (nine_misses ++ [input_of 60000 click]))
      (input_of 16 click) = Some st' ->
    st' = after (nine_misses ++ [input_of 60000 click]).
Proof.
  pose proof (end_reason_last_writer flat flat
                (after (nine_misses ++ [input_of 60000 click]))
                (after_reachable _)) as (Hiff & _ & Hfrozen & _).
  assert (Hg : game_over (after (nine_misses ++ [input_of 60000 click]))
               = true) by (vm_compute; reflexivity).
  split; [exact Hg|]. split; [apply Hiff; exact Hg|].
  intros st' Hf.
  destruct (Hfrozen (input_of 16 click) st' Hg Hf) as [H|H];
    [exact H | discriminate H].
Defined.

(** * The shot *)

Lemma shoot_scan_spec (px py : Q) (ds : list Duck.t) :
  match snd (shoot_scan ds px py) with
  | None =>
      fst (shoot_scan ds px py) = ds /\
      Forall (fun d => eligible px py d = false) ds
  | Some h =>
      exists l1 d l2,
        ds = l1 ++ d :: l2 /\
        Forall (fun d' => eligible px py d' = false) l1 /\
        eligible px py d = true /\
        h = fst (Duck.shoot d) /\
        fst (shoot_scan ds px py) = l1 ++ h :: l2
  end.
Proof.
  induction ds as [|d rest IH]; simpl.
  - split; [reflexivity | constructor].
  - change (Duck.alive d && negb (Duck.hit d) && Duck.collides d px py)
      with (eligible px py d).
    destruct (eligible px py d) eqn:E; simpl.
    + exists [], d, rest. repeat split; [constructor | exact E].
    + destruct (shoot_scan rest px py) as [rest' [h|]]; simpl in *.
      * destruct IH as (l1 & d0 & l2 & -> & Hl1 & Hd0 & Hh & ->).
        exists (d :: l1), d0, l2. repeat split; try assumption.
        constructor; assumption.
      * destruct IH as [-> Hall]. split; [reflexivity|].
        constructor; assumption.
Qed.

Lemma eligible_shoot_hit (px py : Q) (d : Duck.t) :
  eligible px py d = true ->
  Duck.lifecycle_of (fst (Duck.shoot d)) = Duck.Hit /\
  Duck.alive (fst (Duck.shoot d)) = true /\
  Duck.hit (fst (Duck.shoot d)) = true /\
  Duck.hit_timer (fst (Duck.shoot d)) = 20.
Proof.
  unfold eligible, Duck.flying, Duck.shoot, Duck.lifecycle_of.
  destruct (Duck.alive d), (Duck.hit d); simpl; try discriminate.
  intros _. repeat split.
Qed.

Section Lifecycle.
Variable sin : Q -> Q.

Lemma duck_step_keeps (dt : Q) (r : Duck.rnd) (st : state) (d : Duck.t) :
  keeps_lifecycle d (snd (duck_step sin dt r st d)).
Proof.
  unfold keeps_lifecycle, duck_step, escaped, Duck.update, Duck.flying,
    Duck.lifecycle_of.
  destruct (Duck.alive d) eqn:Ha, (Duck.hit d) eqn:Hh; simpl;
    rewrite ?Ha, ?Hh; simpl; split; intros; try discriminate.
  - destruct (Duck.hit_timer d - 1 <=? 0) eqn:E;
      [apply Z.leb_le in E; lia|].
    rewrite andb_false_r. simpl. reflexivity.
  - destruct (Duck.is_offscreen _); simpl; reflexivity.
Qed.

Lemma update_ducks_keeps (dt : Q) (g : nat -> Duck.rnd) :
  forall ds i st,
    Forall2 keeps_lifecycle ds (snd (update_ducks sin dt g i ds st)).
Proof.
  induction ds as [|d rest IH]; intros i st; simpl; [constructor|].
  pose proof (duck_step_keeps dt (g i) st d) as Hd.
  destruct (duck_step sin dt (g i) st d) as [st1 d1].
  specialize (IH (S i) st1).
  destruct (update_ducks sin dt g (S i) rest st1). simpl in *.
  constructor; assumption.
Qed.

End Lifecycle.

Section ShotClaims.
Variables sin cos : Q -> Q.

(** C1.  In an iteration that starts with the game running and
    [ammo > 0] and in which the fire button is pressed, [ammo] goes down
    by exactly 1 and [score] goes up by 0 or by exactly 100.  With 100:
    the pool splits as [l1 ++ d :: l2] where no duck of [l1] is Flying
    and under the reticle and [d] is; the shot turns [d], and only [d],
    into a Hit duck; at the end of the tick that duck is still Hit and
    every duck that was Flying before or after it in the pool, under
    the reticle or not, is still Flying.  With 0: no duck is Flying
    and under the reticle, and the shot changes no duck. *)
Theorem one_shot_one_duck (st st' : state) (inp : input) :
  reachable sin cos st ->
  game_over st = false ->
  0 < ammo st ->
  existsb is_click (events inp) = true ->
  frame sin cos st inp = Some st' ->
  let px := inject_Z (mx (mouse_stage inp st)) in
  let py := inject_Z (my (mouse_stage inp st)) in
  let shot := ducks (after_shot sin cos inp true st) in
  ammo st' = ammo st - 1 /\
  ((score st' = score st /\
    Forall (fun d => eligible px py d = false) (ducks st) /\
    shot = ducks st /\
    Forall2 keeps_lifecycle (ducks st) (ducks st'))
   \/
   (score st' = score st + 100 /\
    exists l1 d l2 l1' d' l2',
      ducks st = l1 ++ d :: l2 /\
      Forall (fun d0 => eligible px py d0 = false) l1 /\
      eligible px py d = true /\
      shot = l1 ++ fst (Duck.shoot d) :: l2 /\
      Duck.lifecycle_of (fst (Duck.shoot d)) = Duck.Hit /\
      ducks st' = l1' ++ d' :: l2' /\
      Duck.lifecycle_of d' = Duck.Hit /\
      Forall2 keeps_lifecycle l1 l1' /\
      Forall2 keeps_lifecycle l2 l2')).
Proof.
  intros Hr Hgo Hammo Hclick Hf px py shot.
  pose proof (reachable_Inv sin cos st Hr) as HI.
  apply frame_playing in Hf; [|exact Hgo]. rewrite Hclick in Hf.
  destruct (tick_fields sin cos inp true st (inv_playing st HI Hgo))
    as (Hs & Ha & _ & _ & _ & _ & _ & _ & _ & _ & Hd).
  rewrite <- Hf in Hs, Ha, Hd.
  destruct (ammo_stage_frame (after_shot sin cos inp true st))
    as (Hs4 & _ & Ha4 & _ & _ & Hd4 & _).
  unfold after_ammo_check in Hs, Ha, Hd. rewrite Hs4 in Hs.
  rewrite Ha4 in Ha. rewrite Hd4 in Hd. fold shot in Hd.
  destruct (timer_stage_frame (dt_of inp) (mouse_stage inp st))
    as (Hs2 & _ & Ha2 & _ & Hd2 & _ & Hx2 & Hy2).
  destruct (mouse_stage_frame inp st)
    as (Hs1 & _ & Ha1 & _ & _ & Hd1 & _).
  fold (before_shot inp st) in Hs2, Ha2, Hd2, Hx2, Hy2.
  assert (Hammo2 : 0 < ammo (before_shot inp st)) by lia.
  destruct (shoot_stage_fired sin cos (rnd_particle inp)
              (before_shot inp st) Hammo2) as (Ha3 & Hd3 & Hcase).
  fold (after_shot sin cos inp true st) in Ha3, Hd3, Hcase.
  fold shot in Hd3. rewrite Hx2, Hy2, Hd2, Hd1 in Hd3, Hcase.
  fold px py in Hd3, Hcase.
  split; [lia|].
  pose proof (shoot_scan_spec px py (ducks st)) as Hscan.
  pose proof (update_ducks_keeps sin (dt_of inp) (rnd_reset inp) shot 0%nat
                (ammo_stage (after_shot sin cos inp true st))) as Hkeep.
  rewrite <- Hd in Hkeep.
  destruct (snd (shoot_scan (ducks st) px py)) as [h|].
  - right. destruct Hcase as (Hsc & _).
    split; [lia|].
    destruct Hscan as (l1 & d & l2 & Hsplit & Hl1 & Hel & Hh & Hfst).
    subst h. rewrite Hfst in Hd3. rewrite Hd3 in Hkeep.
    apply Forall2_app_inv_l in Hkeep.
    destruct Hkeep as (l1' & l2'' & Hk1 & Hk2 & Hout).
    inversion Hk2 as [|a d' l2a l2' Hkd Hk2' E1 E2]; subst.
    destruct (eligible_shoot_hit px py d Hel) as (Hlc & Hal & Hhit & Htm).
    exists l1, d, l2, l1', d', l2'.
    repeat split; try assumption.
    apply (proj2 Hkd); [assumption | assumption | lia].
  - left. destruct Hcase as (Hsc & _). destruct Hscan as [Hfst Hall].
    split; [lia|]. split; [exact Hall|].
    rewrite Hfst in Hd3. split; [exact Hd3|].
    rewrite Hd3 in Hkeep. exact Hkeep.
Qed.

(** C6, amended.  With [ammo == 0] the fire button changes nothing: the
    shoot block leaves the state as it is, and the tick with the button
    pressed is the tick without it.  With [game_over] set when the
    button event is handled, the event is dropped, and an iteration that
    starts with [game_over] set and has no [R] among its events leaves
    the state as it is. *)
Theorem fire_without_effect (st : state) (inp : input) :
  (ammo st = 0 ->
   after_shot sin cos inp true st = before_shot inp st /\
   tick sin cos inp true st = tick sin cos inp false st) /\
  (game_over st = true ->
   forall (g : nat -> Duck.rnd) (button : Z) (rest : list event)
          (b : bool),
     process_events g (MOUSEBUTTONDOWN button :: rest) st b
     = process_events g rest st b) /\
  (game_over st = true ->
   existsb is_restart (events inp) = false ->
   forall st' : state, frame sin cos st inp = Some st' -> st' = st).
Proof.
  split; [|split].
  - intros Ha.
    assert (Ha2 : ammo (before_shot inp st) = 0).
    { unfold before_shot.
      destruct (timer_stage_frame (dt_of inp) (mouse_stage inp st))
        as (_ & _ & -> & _).
      destruct (mouse_stage_frame inp st) as (_ & _ & -> & _). exact Ha. }
    assert (E : forall b, after_shot sin cos inp b st = before_shot inp st).
    { intros b. unfold after_shot. apply shoot_stage_idle. right. lia. }
    split; [apply E|].
    unfold tick.
    change (shoot_stage sin cos true (rnd_particle inp)
              (timer_stage (dt_of inp) (mouse_stage inp st)))
      with (after_shot sin cos inp true st).
    change (shoot_stage sin cos false (rnd_particle inp)
              (timer_stage (dt_of inp) (mouse_stage inp st)))
      with (after_shot sin cos inp false st).
    now rewrite !E.
  - intros Hg g button rest b. simpl. rewrite Hg.
    now rewrite andb_false_r.
  - intros Hg Hr st' Hf. unfold frame in Hf.
    destruct (process_events (rnd_new_game inp) (events inp) st false)
      as [[st1 b]|] eqn:P; [|discriminate].
    apply process_events_over in P; [|assumption|assumption].
    destruct P as [-> ->]. rewrite Hg in Hf. congruence.
Qed.

End ShotClaims.

(** C6, as stated, fails in the tick in which the round ends: in a fresh
    game, an iteration of 60 s with the fire button pressed ends the round
    in the timer block, and the shot is still resolved: it costs one round
    of ammo and emits the eight particles of the muzzle flash. *)
Lemma fire_in_ending_tick :
  game_over (new_game rnd_duck) = false /\
  frame flat flat (new_game rnd_duck) (input_of 60000 click)
  = Some (after [input_of 60000 click]) /\
  game_over (before_shot (input_of 60000 click) (new_game rnd_duck)) = true /\
  game_over (after [input_of 60000 click]) = true /\
  ammo (new_game rnd_duck) = 10 /\
  ammo (after [input_of 60000 click]) = 9 /\
  particles (new_game rnd_duck) = [] /\
  List.length (particles (after [input_of 60000 click])) = 8%nat.
Proof. conjs; by_run. Qed.

Lemma fire_without_effect_witness :
  ammo (after (nine_misses ++ [input_of 16 click; input_of 16 []])) = 0 /\
  tick flat flat (input_of 16 click) true
    (after (nine_misses ++ [input_of 16 click; input_of 16 []]))
  = tick flat flat (input_of 16 click) false
      (after (nine_misses ++ [input_of 16 click; input_of 16 []])).
Proof.
  split; [vm_compute; reflexivity|].
  apply (proj1 (fire_without_effect flat flat
                  (after (nine_misses ++ [input_of 16 click; input_of 16 []]))
                  (input_of 16 click))).
  vm_compute. reflexivity.
Defined.

Lemma one_shot_one_duck_witness :
  ammo (after aim_left) = 10 /\
  ammo (after (aim_left ++ [input_of 16 click])) = 10 - 1 /\
  score (after (aim_left ++ [input_of 16 click])) = 100 /\
  map Duck.lifecycle_of (ducks (after aim_left))
  = [Duck.Flying; Duck.Flying; Duck.Flying] /\
  map Duck.lifecycle_of (ducks (after (aim_left ++ [input_of 16 click])))
  = [Duck.Hit; Duck.Flying; Duck.Flying].
Proof.
  assert (Ha : ammo (after aim_left) = 10) by (vm_compute; reflexivity).
  split; [exact Ha|]. split.
  - rewrite <- Ha.
    apply (one_shot_one_duck flat flat (after aim_left)
             (after (aim_left ++ [input_of 16 click])) (input_of 16 click)).
    + apply after_reachable.
    + vm_compute. reflexivity.
    + rewrite Ha. lia.
    + reflexivity.
    + vm_compute. reflexivity.
  - conjs; by_run.
Defined.

(** * Running out of ammo *)


Section AmmoClaims.
Variables sin cos : Q -> Q.


(** With no ammo the shot does not run: the clip and the pool at the
    ammo check are those at the top of the iteration. *)
Lemma after_shot_empty_clip (inp : input) (b : bool) (st : state) :
  ammo st = 0 ->
  ammo (after_shot sin cos inp b st) = 0 /\
  ducks (after_shot sin cos inp b st) = ducks st.
Proof.
  intros Ha. unfold after_shot.
  destruct (timer_stage_frame (dt_of inp) (mouse_stage inp st))
    as (_ & _ & Ha2 & _ & Hd2 & _).
  destruct (mouse_stage_frame inp st) as (_ & _ & Ha1 & _ & _ & Hd1 & _).
  fold (before_shot inp st) in Ha2, Hd2.
  rewrite shoot_stage_idle by (right; lia).
  split; congruence.
Qed.


End AmmoClaims.



(** * Escaping ducks *)

Lemma reset_on_spawn (d : Duck.t) (sp : Z) (r : Duck.rnd) :
  ((Duck.dir (Duck.reset d sp r) = 1
    /\ Duck.x (Duck.reset d sp r) = inject_Z (- Duck.size d))
   \/ (Duck.dir (Duck.reset d sp r) = -1
       /\ Duck.x (Duck.reset d sp r) = inject_Z (WIN_W + Duck.size d))) /\
  (0 < Duck.size d -> Duck.is_offscreen (Duck.reset d sp r) = false).
Proof.
  assert (Hx : Duck.x (Duck.reset d sp r)
               = if Duck.choice_dir r then inject_Z (- Duck.size d)
                 else inject_Z (WIN_W + Duck.size d))
    by (unfold Duck.reset; destruct (Duck.choice_dir r); reflexivity).
  assert (Hd : Duck.dir (Duck.reset d sp r)
               = if Duck.choice_dir r then 1 else -1) by reflexivity.
  assert (Hsz : Duck.size (Duck.reset d sp r) = Duck.size d)
    by reflexivity.
  unfold Duck.is_offscreen. rewrite Hx, Hd, Hsz. clear Hx Hd Hsz.
  destruct (Duck.choice_dir r).
  - split; [left; split; reflexivity|]. intros Hsize.
    apply orb_false_iff. split; apply Qlt_bool_false_iff;
      rewrite <- Zle_Qle; unfold WIN_W; lia.
  - split; [right; split; reflexivity|]. intros Hsize.
    apply orb_false_iff. split; apply Qlt_bool_false_iff;
      rewrite <- Zle_Qle; unfold WIN_W; lia.
Qed.

Section Escapes.
Variable sin : Q -> Q.

Lemma duck_step_speed (dt : Q) (r : Duck.rnd) (st : state) (d : Duck.t) :
  speed (fst (duck_step sin dt r st d)) = speed st.
Proof.
  unfold duck_step.
  destruct (escaped (Duck.update sin d dt (speed st))); simpl.
  - destruct (lives st - 1 <=? 0); reflexivity.
  - destruct (negb (Duck.alive (Duck.update sin d dt (speed st))));
      reflexivity.
Qed.

Lemma duck_step_lives (dt : Q) (r : Duck.rnd) (st : state) (d : Duck.t) :
  lives (fst (duck_step sin dt r st d))
  = if escaped (Duck.update sin d dt (speed st))
    then Z.max 0 (lives st - 1) else lives st.
Proof.
  unfold duck_step.
  destruct (escaped (Duck.update sin d dt (speed st))); simpl.
  - destruct (lives st - 1 <=? 0) eqn:E; simpl;
      [apply Z.leb_le in E | apply Z.leb_gt in E]; lia.
  - destruct (negb (Duck.alive (Duck.update sin d dt (speed st))));
      reflexivity.
Qed.

Lemma update_ducks_lives (dt : Q) (g : nat -> Duck.rnd) :
  forall ds i st,
    0 <= lives st ->
    lives (fst (update_ducks sin dt g i ds st))
    = Z.max 0 (lives st - escapes sin dt (speed st) ds).
Proof.
  unfold escapes.
  induction ds as [|d rest IH]; intros i st H0; simpl.
  - lia.
  - pose proof (duck_step_lives dt (g i) st d) as Hl.
    pose proof (duck_step_speed dt (g i) st d) as Hs.
    destruct (duck_step sin dt (g i) st d) as [st1 d1]. simpl in Hl, Hs.
    assert (H1 : 0 <= lives st1)
      by (rewrite Hl; destruct (escaped _); lia).
    specialize (IH (S i) st1 H1). rewrite Hs in IH.
    destruct (update_ducks sin dt g (S i) rest st1) as [st2 rest1].
    simpl in *. rewrite IH, Hl.
    destruct (escaped (Duck.update sin d dt (speed st))); simpl;
      rewrite ?Nat2Z.inj_succ; lia.
Qed.

Lemma update_size (dt : Q) (sp : Z) (d : Duck.t) :
  Duck.size (Duck.update sin d dt sp) = Duck.size d.
Proof. unfold Duck.update. destruct (negb (Duck.alive d)); reflexivity. Qed.

(** C7, amended.  In the update loop, a duck that, once moved, is
    off-screen and not hit costs exactly one life, [lives] being kept at
    0 when it would go below; when [lives] reaches 0 the game is over
    with the reason "GAME OVER!".  Off-screen means [x] more than
    [2 * size] (96 pixels, twice the size and not twice the half-width)
    beyond the left or the right edge.  The duck is respawned on the
    spot: it is reset at the speed of the state, Flying, its clock and
    hit timer at zero, one size outside the edge it now flies away from,
    and so not off-screen any more; the pool keeps its length.  A duck
    that is hit never costs a life, wherever it is.  Over the whole
    loop, [lives] goes down by the number of escaping ducks, stopping at
    0. *)
Theorem escape_costs_a_life (dt : Q) (r : Duck.rnd) (st : state)
    (d : Duck.t) :
  let d1 := Duck.update sin d dt (speed st) in
  let st' := fst (duck_step sin dt r st d) in
  let d' := snd (duck_step sin dt r st d) in
  (Duck.is_offscreen d1 = true <->
   (Duck.x d1 < inject_Z (- (2 * Duck.size d1))
    \/ inject_Z (WIN_W + 2 * Duck.size d1) < Duck.x d1)%Q) /\
  (Duck.is_offscreen d1 = true -> Duck.hit d1 = false ->
   lives st' = Z.max 0 (lives st - 1) /\
   (1 <= lives st -> lives st' = lives st - 1) /\
   (lives st <= 1 ->
    lives st' = 0 /\ game_over st' = true /\ over_reason st' = GAME_OVER) /\
   (1 < lives st ->
    game_over st' = game_over st /\ over_reason st' = over_reason st) /\
   d' = Duck.reset d1 (speed st) r /\
   Duck.speed d' = speed st /\
   Duck.lifecycle_of d' = Duck.Flying /\
   Duck.size d' = Duck.size d /\
   Duck.time d' = 0%Q /\
   Duck.hit_timer d' = 0 /\
   ((Duck.dir d' = 1 /\ Duck.x d' = inject_Z (- Duck.size d))
    \/ (Duck.dir d' = -1
        /\ Duck.x d' = inject_Z (WIN_W + Duck.size d))) /\
   (0 < Duck.size d -> Duck.is_offscreen d' = false)) /\
  (Duck.hit d = true -> st' = st) /\
  (forall (g : nat -> Duck.rnd),
     List.length (ducks (ducks_stage sin dt g st))
     = List.length (ducks st)) /\
  (forall (g : nat -> Duck.rnd),
     0 <= lives st ->
     lives (ducks_stage sin dt g st)
     = Z.max 0 (lives st - escapes sin dt (speed st) (ducks st))).
Proof.
  intros d1 st' d'. split; [apply is_offscreen_iff|].
  split; [|split; [|split]].
  - intros Hoff Hhit.
    assert (Hsnd : d' = Duck.reset d1 (speed st) r).
    { subst d'. unfold duck_step. fold d1. unfold escaped.
      rewrite Hoff, Hhit. simpl. destruct (lives st - 1 <=? 0); reflexivity. }
    assert (Hlives :
              lives st' = Z.max 0 (lives st - 1) /\
              (1 <= lives st -> lives st' = lives st - 1) /\
              (lives st <= 1 ->
               lives st' = 0 /\ game_over st' = true
               /\ over_reason st' = GAME_OVER) /\
              (1 < lives st ->
               game_over st' = game_over st
               /\ over_reason st' = over_reason st)).
    { subst st'. unfold duck_step. fold d1. unfold escaped.
      rewrite Hoff, Hhit. simpl.
      destruct (lives st - 1 <=? 0) eqn:E; simpl;
        [apply Z.leb_le in E | apply Z.leb_gt in E];
        repeat split; try reflexivity; try lia. }
    destruct Hlives as (L1 & L2 & L3 & L4).
    pose proof (update_size dt (speed st) d) as Hsz. fold d1 in Hsz.
    destruct (reset_on_spawn d1 (speed st) r) as (Hx & Hon).
    rewrite Hsz in Hx, Hon. rewrite Hsnd.
    split; [exact L1|]. split; [exact L2|]. split; [exact L3|].
    split; [exact L4|]. split; [reflexivity|]. split; [reflexivity|].
    split; [reflexivity|]. split; [exact Hsz|]. split; [reflexivity|].
    split; [reflexivity|]. split; [exact Hx | exact Hon].
  - intros Hhit. subst st'. unfold duck_step. fold d1.
    assert (Hhit1 : Duck.hit d1 = true).
    { subst d1. unfold Duck.update.
      destruct (negb (Duck.alive d)); [exact Hhit | simpl; exact Hhit]. }
    unfold escaped. rewrite Hhit1, andb_false_r.
    destruct (negb (Duck.alive d1)); reflexivity.
  - intros g. unfold ducks_stage.
    pose proof (update_ducks_length sin dt g (ducks st) 0%nat st) as Hlen.
    destruct (update_ducks sin dt g 0 (ducks st) st) as [st1 ds].
    simpl in *. exact Hlen.
  - intros g H0. unfold ducks_stage.
    pose proof (update_ducks_lives dt g (ducks st) 0%nat st H0) as Hl.
    destruct (update_ducks sin dt g 0 (ducks st) st) as [st1 ds].
    simpl in *. exact Hl.
Qed.

End Escapes.

(** C7, as stated, fails on the margin: a flying duck that, once moved,
    is 89.88 pixels beyond the right edge is beyond twice its half-width
    (48 pixels for the body as drawn, 86.4 for the hitbox), yet it is not
    off-screen for the code: the loop takes no life and leaves the duck
    where it is. *)
Lemma escape_margin_is_two_sizes :
  Duck.flying (Duck.update flat duck_near_right (16 # 1000) 180) = true /\
  spec_offscreen (Duck.update flat duck_near_right (16 # 1000) 180) /\
  (inject_Z WIN_W
   + 2 * Duck.hw (Duck.update flat duck_near_right (16 # 1000) 180)
   < Duck.x (Duck.update flat duck_near_right (16 # 1000) 180))%Q /\
  speed (new_game rnd_duck) = 180 /\
  duck_step flat (16 # 1000) (rnd_duck 0%nat) (new_game rnd_duck)
    duck_near_right
  = (new_game rnd_duck, Duck.update flat duck_near_right (16 # 1000) 180).
Proof.
  split; [reflexivity|].
  split; [right; vm_compute; reflexivity|].
  split; [vm_compute; reflexivity|].
  split; [reflexivity|].
  vm_compute. reflexivity.
Qed.

Lemma escape_costs_a_life_witness :
  lives (fst (duck_step flat (16 # 1000) (rnd_duck 0%nat) last_life
                duck_gone_right)) = 0 /\
  game_over (fst (duck_step flat (16 # 1000) (rnd_duck 0%nat) last_life
                    duck_gone_right)) = true /\
  over_reason (fst (duck_step flat (16 # 1000) (rnd_duck 0%nat) last_life
                      duck_gone_right)) = GAME_OVER /\
  Duck.is_offscreen (snd (duck_step flat (16 # 1000) (rnd_duck 0%nat)
                            last_life duck_gone_right)) = false /\
  fst (duck_step flat (16 # 1000) (rnd_duck 0%nat) last_life
         (fst (Duck.shoot duck_gone_right))) = last_life.
Proof.
  destruct (escape_costs_a_life flat (16 # 1000) (rnd_duck 0%nat) last_life
              duck_gone_right) as (_ & Hesc & _).
  destruct Hesc
    as (_ & _ & Hzero & _ & _ & _ & _ & _ & _ & _ & _ & Hon);
    [vm_compute; reflexivity | reflexivity |].
  destruct Hzero as (H1 & H2 & H3); [vm_compute; discriminate|].
  split; [exact H1|]. split; [exact H2|]. split; [exact H3|].
  split; [apply Hon; reflexivity|].
  apply (escape_costs_a_life flat (16 # 1000) (rnd_duck 0%nat) last_life
           (fst (Duck.shoot duck_gone_right))).
  reflexivity.
Defined.

(** * Particles *)

Lemma dt_of_nonneg (inp : input) : (0 <= dt_of inp)%Q.
Proof.
  unfold dt_of, Qdiv. apply Qmult_le_0_compat.
  - change 0%Q with (inject_Z 0). rewrite <- Zle_Qle. lia.
  - discriminate.
Qed.

Section ParticleClaims.
Variables sin cos : Q -> Q.




End ParticleClaims.



(** * Further properties of the loop *)

Section Accounting.
Variables sin cos : Q -> Q.

(** What one tick of a running game does to [ammo], [score] and [speed]:
    nothing, or one round spent on a miss, or one round spent on a hit. *)
Lemma tick_accounting (inp : input) (b : bool) (st : state) :
  0 < lives st ->
  let st' := tick sin cos inp b st in
  (ammo st' = ammo st /\ score st' = score st /\ speed st' = speed st /\
   (b = false \/ ammo st <= 0))
  \/
  (b = true /\ 0 < ammo st /\ ammo st' = ammo st - 1 /\
   ((score st' = score st /\ speed st' = speed st) \/
    (score st' = score st + 100 /\
     speed st' = Z.min (speed st + SPEED_INCREMENT) MAX_SPEED))).
Proof.
  intros Hpos st'.
  destruct (tick_fields sin cos inp b st Hpos)
    as (Hs & Ha & _ & Hsp & _).
  fold st' in Hs, Ha, Hsp. unfold after_ammo_check in Hs, Ha, Hsp.
  destruct (ammo_stage_frame (after_shot sin cos inp b st))
    as (Hs4 & _ & Ha4 & _ & Hsp4 & _).
  rewrite Hs4 in Hs. rewrite Ha4 in Ha. rewrite Hsp4 in Hsp.
  destruct (timer_stage_frame (dt_of inp) (mouse_stage inp st))
    as (Hs2 & _ & Ha2 & Hsp2 & _).
  destruct (mouse_stage_frame inp st)
    as (Hs1 & _ & Ha1 & _ & Hsp1 & _).
  fold (before_shot inp st) in Hs2, Ha2, Hsp2.
  assert (Hs0 : score (before_shot inp st) = score st) by congruence.
  assert (Ha0 : ammo (before_shot inp st) = ammo st) by congruence.
  assert (Hsp0 : speed (before_shot inp st) = speed st) by congruence.
  unfold after_shot in Hs, Ha, Hsp.
  destruct b.
  - destruct (Z_lt_le_dec 0 (ammo st)) as [Hammo|Hammo].
    + right. split; [reflexivity|]. split; [exact Hammo|].
      destruct (shoot_stage_fired sin cos (rnd_particle inp)
                  (before_shot inp st)) as (Ha3 & _ & Hcase); [lia|].
      split; [lia|].
      destruct (snd (shoot_scan (ducks (before_shot inp st))
                       (inject_Z (mx (before_shot inp st)))
                       (inject_Z (my (before_shot inp st)))));
        destruct Hcase as (Hs3 & Hsp3 & _).
      * right. split; [lia|]. rewrite Hsp, Hsp3, Hsp0. reflexivity.
      * left. split; [lia | congruence].
    + left. rewrite shoot_stage_idle in Hs, Ha, Hsp by (right; lia).
      repeat split; try congruence. right. exact Hammo.
  - left. rewrite shoot_stage_idle in Hs, Ha, Hsp by (left; reflexivity).
    repeat split; try congruence. left. reflexivity.
Qed.

Lemma new_game_accounted (g : nat -> Duck.rnd) : accounted (new_game g).
Proof.
  exists 0. simpl. unfold STARTING_AMMO, DUCK_BASE_SPEED, SPEED_INCREMENT.
  lia.
Qed.

Lemma tick_accounted (inp : input) (b : bool) (st : state) :
  0 < lives st -> accounted st -> accounted (tick sin cos inp b st).
Proof.
  intros Hpos (k & Hk & Hs & Hsp).
  unfold STARTING_AMMO, DUCK_BASE_SPEED, SPEED_INCREMENT in *.
  destruct (tick_accounting inp b st Hpos)
    as [(Ha' & Hs' & Hsp' & _)
       |(_ & Hammo & Ha' & [(Hs' & Hsp')|(Hs' & Hsp')])].
  - exists k. unfold STARTING_AMMO, DUCK_BASE_SPEED, SPEED_INCREMENT. lia.
  - exists k. unfold STARTING_AMMO, DUCK_BASE_SPEED, SPEED_INCREMENT. lia.
  - exists (k + 1).
    unfold STARTING_AMMO, DUCK_BASE_SPEED, SPEED_INCREMENT, MAX_SPEED in *.
    lia.
Qed.

Lemma reachable_accounted (st : state) :
  reachable sin cos st -> accounted st.
Proof.
  induction 1 as [g | st st' inp Hr IH Hf].
  - apply new_game_accounted.
  - pose proof (reachable_Inv sin cos st Hr) as HI.
    unfold frame in Hf.
    destruct (process_events (rnd_new_game inp) (events inp) st false)
      as [[st1 b]|] eqn:E; [|discriminate].
    assert (H1 : accounted st1 /\ Inv st1).
    { apply process_events_state in E. destruct E as [-> | ->].
      - split; assumption.
      - split; [apply new_game_accounted | apply new_game_Inv]. }
    destruct H1 as [Hacc1 HI1].
    destruct (game_over st1) eqn:Hgo; inversion Hf; subst.
    + exact Hacc1.
    + apply tick_accounted; [|exact Hacc1].
      apply (inv_playing st1 HI1 Hgo).
Qed.

(** X1.  The books always balance: in every state the loop reaches there
    is a number [k] of ducks shot in the round, at most the number of
    rounds of ammo spent, with [score = 100 * k] and
    [speed = DUCK_BASE_SPEED + SPEED_INCREMENT * k].  So [speed] stays
    below [MAX_SPEED]: with ten rounds of ammo the cap of the shoot block
    is never reached. *)
Theorem books_balance (st : state) :
  reachable sin cos st ->
  accounted st /\
  0 <= score st <= 100 * STARTING_AMMO /\
  DUCK_BASE_SPEED <= speed st
  <= DUCK_BASE_SPEED + SPEED_INCREMENT * STARTING_AMMO /\
  speed st < MAX_SPEED.
Proof.
  intros Hr.
  pose proof (reachable_accounted st Hr) as Hacc.
  split; [exact Hacc|].
  pose proof (inv_ammo st (reachable_Inv sin cos st Hr)) as Hammo.
  destruct Hacc as (k & Hk & Hs & Hsp).
  unfold STARTING_AMMO, DUCK_BASE_SPEED, SPEED_INCREMENT, MAX_SPEED in *.
  lia.
Qed.

(** X2.  Within a round nothing is given back: over an iteration of a
    running game [score] and [speed] do not go down, [ammo], [lives] and
    [time_left] do not go up; and when no event of the iteration is a
    press of button 1, [ammo], [score] and [speed] are left as they are. *)
Theorem round_only_spends (st st' : state) (inp : input) :
  reachable sin cos st ->
  game_over st = false ->
  frame sin cos st inp = Some st' ->
  score st <= score st' /\
  speed st <= speed st' <= MAX_SPEED /\
  ammo st' <= ammo st /\
  lives st' <= lives st /\
  (time_left st' <= time_left st)%Q /\
  (existsb is_click (events inp) = false ->
   ammo st' = ammo st /\ score st' = score st /\ speed st' = speed st).
Proof.
  intros Hr Hgo Hf.
  pose proof (reachable_Inv sin cos st Hr) as HI.
  pose proof (reachable_frame sin cos st st' inp Hr Hf) as Hr'.
  assert (Hmax : speed st' < MAX_SPEED).
  { pose proof (inv_ammo st' (reachable_Inv sin cos st' Hr')) as Hammo.
    destruct (reachable_accounted st' Hr') as (k & Hk & _ & Hsp).
    unfold STARTING_AMMO, DUCK_BASE_SPEED, SPEED_INCREMENT, MAX_SPEED in *.
    lia. }
  apply frame_playing in Hf; [|exact Hgo].
  pose proof (inv_playing st HI Hgo) as Hpos.
  destruct (tick_fields sin cos inp (existsb is_click (events inp)) st Hpos)
    as (_ & _ & Ht & _ & _ & _ & Hl & _).
  rewrite <- Hf in Ht, Hl.
  assert (Htime : (time_left st' <= time_left st)%Q).
  { rewrite Ht. unfold after_ammo_check.
    destruct (ammo_stage_frame
                (after_shot sin cos inp (existsb is_click (events inp)) st))
      as (_ & _ & _ & -> & _).
    unfold after_shot.
    destruct (shoot_stage_frame sin cos (existsb is_click (events inp))
                (rnd_particle inp) (before_shot inp st)) as (_ & -> & _).
    unfold before_shot, timer_stage.
    destruct (mouse_stage_frame inp st) as (_ & _ & _ & Htl & _).
    rewrite Htl. pose proof (dt_of_nonneg inp) as Hdt.
    destruct (Qle_bool (time_left st - dt_of inp) 0); simpl.
    - apply (inv_time st HI).
    - lra. }
  destruct (tick_accounting inp (existsb is_click (events inp)) st Hpos)
    as [(Ha' & Hs' & Hsp' & Hb)
       |(Hb & Hammo & Ha' & [(Hs' & Hsp')|(Hs' & Hsp')])];
    rewrite <- Hf in *.
  - repeat split; try lia; try assumption.
  - repeat split; intros; try lia; try assumption; congruence.
  - assert (speed st <= speed st').
    { rewrite Hsp'.
      pose proof (inv_ammo st HI) as Hammo0.
      destruct (reachable_accounted st Hr) as (k & Hk & _ & Hsp0).
      unfold STARTING_AMMO, DUCK_BASE_SPEED, SPEED_INCREMENT, MAX_SPEED
        in *.
      lia. }
    repeat split; intros; try lia; try assumption; congruence.
Qed.

End Accounting.

Lemma round_only_spends_witness :
  score (after aim_left) <= score (after (aim_left ++ [input_of 16 click]))
  /\ ammo (after (aim_left ++ [input_of 16 click])) <= ammo (after aim_left).
Proof.
  destruct (round_only_spends flat flat (after aim_left)
              (after (aim_left ++ [input_of 16 click])) (input_of 16 click))
    as (Hs & _ & Ha & _).
  - apply after_reachable.
  - by_run.
  - by_run.
  - split; assumption.
Defined.

Lemma books_balance_witness :
  score (after (aim_left ++ [input_of 16 click])) = 100 /\
  speed (after (aim_left ++ [input_of 16 click])) < MAX_SPEED.
Proof.
  split; [by_run|].
  apply (books_balance flat flat (after (aim_left ++ [input_of 16 click]))).
  apply after_reachable.
Defined.

(** * The pool of ducks *)

Lemma reset_at_top (d : Duck.t) (sp : Z) (r : Duck.rnd) :
  Duck.size d = 48 -> duck_at_top sp (Duck.reset d sp r).
Proof.
  intros Hs. unfold duck_at_top, duck_in_pool, Duck.reset, Duck.FLAP_SPEED.
  simpl. repeat split; try assumption; try lia; try discriminate.
  destruct (Duck.choice_dir r); [left | right]; reflexivity.
Qed.

Lemma shoot_scan_pool (sp : Z) (px py : Q) (ds : list Duck.t) :
  Forall (duck_at_top sp) ds ->
  Forall duck_in_pool (fst (shoot_scan ds px py)).
Proof.
  induction 1 as [|d rest Hd Hrest IH]; simpl; [constructor|].
  destruct Hd as ((Ha & Hs & Hdir & Hf & Ht) & _ & _).
  assert (Hkeep : Forall duck_in_pool rest).
  { eapply Forall_impl; [|exact Hrest]. intros a Ha'. apply Ha'. }
  destruct (Duck.alive d && negb (Duck.hit d) && Duck.collides d px py)
    eqn:E; simpl.
  - constructor; [|exact Hkeep].
    apply andb_true_iff in E. destruct E as [E _].
    apply andb_true_iff in E. destruct E as [_ E].
    apply negb_true_iff in E.
    unfold Duck.shoot. rewrite Ha, E. simpl.
    unfold duck_in_pool. simpl.
    split; [reflexivity|]. split; [exact Hs|]. split; [exact Hdir|].
    split; [exact Hf | intros _; lia].
  - destruct (shoot_scan rest px py) as [rest' h]. simpl in *.
    constructor; [|exact IH].
    exact (conj Ha (conj Hs (conj Hdir (conj Hf Ht)))).
Qed.

Section Pool.
Variables sin cos : Q -> Q.

Lemma duck_step_at_top (dt : Q) (r : Duck.rnd) (st : state) (d : Duck.t) :
  duck_in_pool d ->
  duck_at_top (speed st) (snd (duck_step sin dt r st d)).
Proof.
  intros (Ha & Hs & Hdir & Hf & Ht).
  pose proof (duck_step_speed sin dt r st d) as Hsp.
  unfold duck_step in *.
  set (d1 := Duck.update sin d dt (speed st)) in *.
  assert (Hs1 : Duck.size d1 = 48).
  { unfold d1, Duck.update. rewrite Ha. simpl. exact Hs. }
  destruct (escaped d1).
  - simpl in *. rewrite Hsp. apply reset_at_top. exact Hs1.
  - destruct (negb (Duck.alive d1)) eqn:Hdead; simpl.
    + apply reset_at_top. exact Hs1.
    + apply negb_false_iff in Hdead. revert Hdead.
      unfold d1, Duck.update, duck_at_top, duck_in_pool, Duck.FLAP_SPEED
        in *.
      rewrite Ha. simpl. intros Halive.
      destruct (Duck.hit d) eqn:Hh.
      * destruct (Duck.hit_timer d - 1 <=? 0) eqn:E; [discriminate|].
        apply Z.leb_gt in E. specialize (Ht eq_refl).
        repeat split; try assumption; try lia;
          destruct (Duck.flap_frame d + 1 >=? 8) eqn:G; try lia;
          apply Z.geb_le in G || (rewrite Z.geb_leb in G;
                                   apply Z.leb_gt in G); lia.
      * repeat split; try assumption; try discriminate; try lia;
          destruct (Duck.flap_frame d + 1 >=? 8) eqn:G; try lia;
          apply Z.geb_le in G || (rewrite Z.geb_leb in G;
                                   apply Z.leb_gt in G); lia.
Qed.

Lemma update_ducks_at_top (dt : Q) (g : nat -> Duck.rnd) :
  forall ds i st,
    Forall duck_in_pool ds ->
    Forall (duck_at_top (speed st)) (snd (update_ducks sin dt g i ds st)).
Proof.
  induction ds as [|d rest IH]; intros i st H; simpl; [constructor|].
  inversion H as [|a l Hd Hrest]; subst.
  pose proof (duck_step_at_top dt (g i) st d Hd) as Hd1.
  pose proof (duck_step_speed sin dt (g i) st d) as Hsp.
  destruct (duck_step sin dt (g i) st d) as [st1 d1]. simpl in Hd1, Hsp.
  specialize (IH (S i) st1 Hrest). rewrite Hsp in IH.
  destruct (update_ducks sin dt g (S i) rest st1). simpl in *.
  constructor; assumption.
Qed.

Lemma new_game_at_top (g : nat -> Duck.rnd) :
  Forall (duck_at_top (speed (new_game g))) (ducks (new_game g)).
Proof.
  change (ducks (new_game g))
    with [Duck.init DUCK_BASE_SPEED (g 0%nat);
          Duck.init DUCK_BASE_SPEED (g 1%nat);
          Duck.init DUCK_BASE_SPEED (g 2%nat)].
  change (speed (new_game g)) with DUCK_BASE_SPEED.
  repeat (constructor; [apply reset_at_top; reflexivity|]).
  constructor.
Qed.

Lemma reachable_at_top (st : state) :
  reachable sin cos st -> Forall (duck_at_top (speed st)) (ducks st).
Proof.
  intros Hr.
  induction Hr as [g | st st' inp Hr IH Hf].
  - apply new_game_at_top.
  - pose proof (reachable_Inv sin cos st Hr) as HI.
    unfold frame in Hf.
    destruct (process_events (rnd_new_game inp) (events inp) st false)
      as [[st1 b]|] eqn:E; [|discriminate].
    assert (H1 : Forall (duck_at_top (speed st1)) (ducks st1) /\ Inv st1).
    { apply process_events_state in E. destruct E as [-> | ->].
      - split; assumption.
      - split; [apply new_game_at_top | apply new_game_Inv]. }
    destruct H1 as [Htop1 HI1].
    destruct (game_over st1) eqn:Hgo; inversion Hf; subst; [exact Htop1|].
    destruct (tick_fields sin cos inp b st1 (inv_playing st1 HI1 Hgo))
      as (_ & _ & _ & Hsp & _ & _ & _ & _ & _ & _ & Hd).
    rewrite Hd, Hsp. apply update_ducks_at_top.
    unfold after_ammo_check.
    destruct (ammo_stage_frame (after_shot sin cos inp b st1))
      as (_ & _ & _ & _ & _ & -> & _).
    unfold after_shot, shoot_stage.
    destruct (timer_stage_frame (dt_of inp) (mouse_stage inp st1))
      as (_ & _ & _ & Hsp2 & Hd2 & _).
    destruct (mouse_stage_frame inp st1)
      as (_ & _ & _ & _ & Hsp1 & Hd1 & _).
    fold (before_shot inp st1) in Hsp2, Hd2 |- *.
    assert (Hpool : Forall duck_in_pool (ducks (before_shot inp st1))).
    { rewrite Hd2, Hd1. eapply Forall_impl; [|exact Htop1].
      intros a Ha. apply Ha. }
    destruct (b && (ammo (before_shot inp st1) >? 0)); [|exact Hpool].
    simpl.
    pose proof (shoot_scan_pool (speed st1)
                  (inject_Z (mx (before_shot inp st1)))
                  (inject_Z (my (before_shot inp st1)))
                  (ducks (before_shot inp st1))) as Hscan.
    rewrite Hd2, Hd1 in Hscan. specialize (Hscan Htop1).
    rewrite Hd2, Hd1.
    destruct (shoot_scan (ducks st1) (inject_Z (mx (before_shot inp st1)))
                (inject_Z (my (before_shot inp st1)))) as [ds [h|]];
      simpl in *; exact Hscan.
Qed.

(** X3.  The pool is always full and in order: in every state the loop
    reaches there are exactly [MAX_DUCKS] ducks; each is alive, of size
    48, flies left or right, carries the shared speed of the state, has
    its flap counter below [FLAP_SPEED], and, when hit, has between 1 and
    19 frames left. *)
Theorem pool_always_full (st : state) :
  reachable sin cos st ->
  List.length (ducks st) = Z.to_nat MAX_DUCKS /\
  Forall (duck_at_top (speed st)) (ducks st).
Proof.
  intros Hr. split; [apply (inv_pool st (reachable_Inv sin cos st Hr))|].
  apply reachable_at_top. exact Hr.
Qed.

End Pool.

Lemma pool_always_full_witness :
  List.length (ducks (after (aim_left ++ [input_of 16 click]))) = 3%nat /\
  Forall (duck_at_top (speed (after (aim_left ++ [input_of 16 click]))))
    (ducks (after (aim_left ++ [input_of 16 click]))).
Proof.
  apply (pool_always_full flat flat).
  apply after_reachable.
Defined.

(** * The life of a duck *)

Lemma shot_duck_fields (d : Duck.t) :
  Duck.lifecycle_of d = Duck.Flying ->
  Duck.alive (fst (Duck.shoot d)) = true /\
  Duck.hit (fst (Duck.shoot d)) = true /\
  Duck.hit_timer (fst (Duck.shoot d)) = 20.
Proof.
  unfold Duck.lifecycle_of, Duck.shoot.
  destruct (Duck.alive d), (Duck.hit d); simpl; try discriminate.
  intros _. repeat split.
Qed.

Section DuckLife.
Variable sin : Q -> Q.

Lemma updates_dead (steps : list (Q * Z)) (d : Duck.t) :
  Duck.alive d = false -> updates sin d steps = d.
Proof.
  unfold updates. induction steps as [|s rest IH]; intros Hd; simpl;
    [reflexivity|].
  assert (E : Duck.update sin d (fst s) (snd s) = d)
    by (unfold Duck.update; rewrite Hd; reflexivity).
  rewrite E. apply IH. exact Hd.
Qed.

Lemma updates_hit (steps : list (Q * Z)) :
  forall d : Duck.t,
    Duck.alive d = true -> Duck.hit d = true -> 0 < Duck.hit_timer d ->
    (Z.of_nat (List.length steps) < Duck.hit_timer d ->
     Duck.lifecycle_of (updates sin d steps) = Duck.Hit /\
     Duck.hit_timer (updates sin d steps)
     = Duck.hit_timer d - Z.of_nat (List.length steps)) /\
    (Duck.hit_timer d <= Z.of_nat (List.length steps) ->
     Duck.lifecycle_of (updates sin d steps) = Duck.Gone).
Proof.
  induction steps as [|s rest IH]; intros d Ha Hh Ht.
  - simpl. split; [|lia]. intros _.
    unfold Duck.lifecycle_of. rewrite Ha, Hh. split; [reflexivity | lia].
  - change (updates sin d (s :: rest))
      with (updates sin (Duck.update sin d (fst s) (snd s)) rest).
    change (List.length (s :: rest)) with (S (List.length rest)).
    rewrite Nat2Z.inj_succ.
    set (d1 := Duck.update sin d (fst s) (snd s)).
    assert (Hh1 : Duck.hit d1 = true)
      by (unfold d1, Duck.update; rewrite Ha; simpl; exact Hh).
    assert (Ht1 : Duck.hit_timer d1 = Duck.hit_timer d - 1)
      by (unfold d1, Duck.update; rewrite Ha, Hh; reflexivity).
    assert (Ha1 : Duck.alive d1 = negb (Duck.hit_timer d - 1 <=? 0)).
    { unfold d1, Duck.update. rewrite Ha, Hh. simpl.
      destruct (Duck.hit_timer d - 1 <=? 0); reflexivity. }
    destruct (Duck.hit_timer d - 1 <=? 0) eqn:E; simpl in Ha1.
    + apply Z.leb_le in E. rewrite (updates_dead rest d1 Ha1).
      split; [lia|]. intros _. unfold Duck.lifecycle_of. now rewrite Ha1.
    + apply Z.leb_gt in E.
      destruct (IH d1 Ha1 Hh1) as [IH1 IH2]; [lia|].
      rewrite Ht1 in IH1, IH2. split; intros H.
      * destruct IH1 as [-> ->]; [lia|]. split; [reflexivity | lia].
      * apply IH2. lia.
Qed.

(** X4.  A duck that is shot dies by frames, not by seconds: after
    [shoot] on a Flying duck, fewer than 20 calls of [update] (whatever
    their [dt] and speed) leave it Hit, with [hit_timer] counting down
    from 20, and from the 20th call on it is no longer alive.  The
    iteration of the update loop in which a hit duck dies resets it on
    the spot at the shared speed, without touching the state: no life is
    lost. *)
Theorem shot_duck_dies_in_20_updates (d : Duck.t) (steps : list (Q * Z)) :
  Duck.lifecycle_of d = Duck.Flying ->
  let d' := updates sin (fst (Duck.shoot d)) steps in
  ((List.length steps < 20)%nat ->
   Duck.lifecycle_of d' = Duck.Hit /\
   Duck.hit_timer d' = 20 - Z.of_nat (List.length steps)) /\
  ((20 <= List.length steps)%nat -> Duck.lifecycle_of d' = Duck.Gone) /\
  ((List.length steps = 19)%nat ->
   forall (dt : Q) (r : Duck.rnd) (st : state),
     duck_step sin dt r st d'
     = (st, Duck.reset (Duck.update sin d' dt (speed st)) (speed st) r)).
Proof.
  intros Hfly d'.
  destruct (shot_duck_fields d Hfly) as (Ha & Hh & Ht).
  destruct (updates_hit steps (fst (Duck.shoot d)) Ha Hh) as [H1 H2];
    [lia|].
  rewrite Ht in H1, H2. fold d' in H1, H2.
  split; [intros H; apply H1; lia|].
  split; [intros H; apply H2; lia|].
  intros H19 dt r st. destruct H1 as [Hlc Htm]; [lia|].
  rewrite H19 in Htm.
  unfold Duck.lifecycle_of in Hlc.
  destruct (Duck.alive d') eqn:Ha'; [|discriminate].
  destruct (Duck.hit d') eqn:Hh'; [|discriminate].
  unfold duck_step.
  set (d1 := Duck.update sin d' dt (speed st)).
  assert (Hh1 : Duck.hit d1 = true)
    by (unfold d1, Duck.update; rewrite Ha'; simpl; exact Hh').
  assert (Ha1 : Duck.alive d1 = false).
  { unfold d1, Duck.update. rewrite Ha', Hh', Htm. reflexivity. }
  unfold escaped. rewrite Hh1, andb_false_r, Ha1. reflexivity.
Qed.

End DuckLife.

Lemma shot_duck_dies_in_20_updates_witness :
  Duck.lifecycle_of
    (updates flat (fst (Duck.shoot duck_at_100))
       (repeat ((16 # 1000)%Q, 180) 19)) = Duck.Hit /\
  Duck.lifecycle_of
    (updates flat (fst (Duck.shoot duck_at_100))
       (repeat ((16 # 1000)%Q, 180) 20)) = Duck.Gone.
Proof.
  split.
  - apply (shot_duck_dies_in_20_updates flat duck_at_100
             (repeat ((16 # 1000)%Q, 180) 19)); [reflexivity|].
    rewrite repeat_length. lia.
  - apply (shot_duck_dies_in_20_updates flat duck_at_100
             (repeat ((16 # 1000)%Q, 180) 20)); [reflexivity|].
    rewrite repeat_length. lia.
Defined.

(** * Where ducks appear and fly *)

(** X5.  A duck that has just been reset (its size being positive) is
    Flying, starts exactly one size beyond the edge it flies away from,
    is not off-screen, and cannot be hit where it stands: the collision
    test fails for every reticle column [0 <= px <= WIN_W - 1]. *)
Theorem spawn_out_of_reach (d : Duck.t) (sp : Z) (r : Duck.rnd)
    (px : Z) (py : Q) :
  0 < Duck.size d ->
  0 <= px <= WIN_W - 1 ->
  let d' := Duck.reset d sp r in
  Duck.lifecycle_of d' = Duck.Flying /\
  ((Duck.dir d' = 1 /\ Duck.x d' = inject_Z (- Duck.size d))
   \/ (Duck.dir d' = -1 /\ Duck.x d' = inject_Z (WIN_W + Duck.size d))) /\
  Duck.is_offscreen d' = false /\
  Duck.collides d' (inject_Z px) py = false.
Proof.
  intros Hsize Hpx d'. split; [reflexivity|].
  assert (Hs : (0 < inject_Z (Duck.size d))%Q)
    by (change 0%Q with (inject_Z 0); rewrite <- Zlt_Qlt; exact Hsize).
  assert (Hp0 : (0 <= inject_Z px)%Q)
    by (change 0%Q with (inject_Z 0); rewrite <- Zle_Qle; lia).
  assert (Hp1 : (inject_Z px <= inject_Z WIN_W - 1)%Q).
  { change 1%Q with (inject_Z 1). unfold Qminus.
    rewrite <- inject_Z_opp, <- inject_Z_plus, <- Zle_Qle. lia. }
  assert (Hx : Duck.x d'
               = if Duck.choice_dir r then inject_Z (- Duck.size d)
                 else inject_Z (WIN_W + Duck.size d))
    by (unfold d', Duck.reset; destruct (Duck.choice_dir r); reflexivity).
  assert (Hd : Duck.dir d' = if Duck.choice_dir r then 1 else -1)
    by reflexivity.
  assert (Hsz : Duck.size d' = Duck.size d) by reflexivity.
  unfold Duck.is_offscreen, Duck.collides, Duck.hw.
  rewrite Hx, Hd, Hsz. clear Hx Hd Hsz.
  destruct (Duck.choice_dir r).
  - split; [left; split; reflexivity|]. split.
    + apply orb_false_iff. split; apply Qlt_bool_false_iff;
        rewrite <- Zle_Qle; unfold WIN_W; lia.
    + apply andb_false_iff. left. apply Qlt_bool_false_iff.
      rewrite inject_Z_opp.
      eapply Qle_trans; [|apply Qle_Qabs]. lra.
  - split; [right; split; reflexivity|]. split.
    + apply orb_false_iff. split; apply Qlt_bool_false_iff;
        rewrite <- Zle_Qle; unfold WIN_W; lia.
    + apply andb_false_iff. left. apply Qlt_bool_false_iff.
      rewrite inject_Z_plus.
      rewrite <- Qabs_opp.
      eapply Qle_trans; [|apply Qle_Qabs]. lra.
Qed.

Lemma spawn_out_of_reach_witness :
  Duck.is_offscreen (Duck.reset duck_at_100 180 (rnd_duck 0%nat)) = false /\
  Duck.collides (Duck.reset duck_at_100 180 (rnd_duck 0%nat))
    (inject_Z 0) (100 # 1) = false.
Proof.
  apply (spawn_out_of_reach duck_at_100 180 (rnd_duck 0%nat) 0 (100 # 1)).
  - reflexivity.
  - unfold WIN_W. lia.
Defined.

Section Band.
Variable sin : Q -> Q.
Hypothesis sin_bounded : forall q : Q, (-1 <= sin q <= 1)%Q.



End Band.


(** * Events: quitting and restarting *)

Lemma process_events_exit (g : nat -> Duck.rnd) (evs : list event) :
  forall (st : state) (b : bool),
    process_events g evs st b = None <-> existsb is_quit evs = true.
Proof.
  induction evs as [|ev rest IH]; intros st b; simpl.
  - split; discriminate.
  - destruct ev as [|[| |]|button|]; simpl; try (split; reflexivity).
    + destruct (game_over st); apply IH.
    + apply IH.
    + destruct ((button =? 1) && negb (game_over st)); apply IH.
    + apply IH.
Qed.

Lemma process_events_over_prefix (g : nat -> Duck.rnd)
    (pre evs : list event) :
  forall (st : state) (b : bool),
    game_over st = true ->
    existsb is_restart pre = false ->
    existsb is_quit pre = false ->
    process_events g (pre ++ evs) st b = process_events g evs st b.
Proof.
  induction pre as [|ev rest IH]; intros st b Hgo Hr Hq; simpl;
    [reflexivity|].
  destruct ev as [|[| |]|button|]; simpl in Hr, Hq; try discriminate.
  - apply IH; assumption.
  - rewrite Hgo, andb_false_r. apply IH; assumption.
  - apply IH; assumption.
Qed.

Section Events.
Variables sin cos : Q -> Q.

(** X7.  The loop exits exactly on a quit request: an iteration ends the
    process if and only if one of its events is [QUIT] or the Escape key,
    whatever the state and the other events. *)
Theorem exit_iff_quit (st : state) (inp : input) :
  frame sin cos st inp = None <-> existsb is_quit (events inp) = true.
Proof.
  unfold frame.
  pose proof (process_events_exit (rnd_new_game inp) (events inp) st false)
    as H.
  destruct (process_events (rnd_new_game inp) (events inp) st false)
    as [[st1 b]|].
  - split; intros E.
    + destruct (game_over st1); discriminate.
    + apply H in E. discriminate.
  - split; intros _; [apply H|]; reflexivity.
Qed.

(** X8.  Restarting: when the game is over and [R] is pressed (no quit
    request among the events), the iteration throws the state away and
    plays one tick of a fresh game.  Presses of button 1 handled before
    the [R] are lost, those handled after it shoot in the fresh game;
    further presses of [R] do nothing. *)
Theorem restart_plays_fresh_game (st : state) (inp : input)
    (pre post : list event) :
  game_over st = true ->
  events inp = pre ++ KEYDOWN K_r :: post ->
  existsb is_restart pre = false ->
  existsb is_quit (events inp) = false ->
  frame sin cos st inp
  = Some (tick sin cos inp (existsb is_click post)
            (new_game (rnd_new_game inp))).
Proof.
  intros Hgo Hev Hr Hq. unfold frame.
  assert (Hq' : existsb is_quit pre = false /\ existsb is_quit post = false).
  { rewrite Hev, existsb_app in Hq. apply orb_false_iff in Hq.
    destruct Hq as [Hq1 Hq2]. simpl in Hq2. split; assumption. }
  destruct Hq' as [Hq1 Hq2].
  rewrite Hev, process_events_over_prefix by assumption.
  simpl. rewrite Hgo.
  destruct (process_events (rnd_new_game inp) post
              (new_game (rnd_new_game inp)) false) as [[st1 b]|] eqn:E.
  - apply process_events_playing in E; [|reflexivity].
    destruct E as [-> ->]. reflexivity.
  - apply process_events_exit in E. congruence.
Qed.

End Events.

Lemma exit_iff_quit_witness :
  frame flat flat (after nine_misses)
    (input_of 16 [MOUSEBUTTONDOWN 1; KEYDOWN K_ESCAPE]) = None.
Proof.
  apply (exit_iff_quit flat flat). reflexivity.
Defined.

Lemma restart_plays_fresh_game_witness :
  frame flat flat (after (nine_misses ++ [input_of 16 click]))
    (input_of 16 [MOUSEBUTTONDOWN 1; KEYDOWN K_r; KEYDOWN K_r])
  = Some (tick flat flat
            (input_of 16 [MOUSEBUTTONDOWN 1; KEYDOWN K_r; KEYDOWN K_r])
            false (new_game rnd_duck)).
Proof.
  apply (restart_plays_fresh_game flat flat
           (after (nine_misses ++ [input_of 16 click]))
           (input_of 16 [MOUSEBUTTONDOWN 1; KEYDOWN K_r; KEYDOWN K_r])
           [MOUSEBUTTONDOWN 1] [KEYDOWN K_r]).
  - by_run.
  - reflexivity.
  - reflexivity.
  - reflexivity.
Defined.

(** * The clock *)

Section Clock.
Variables sin cos : Q -> Q.

(** A tick after which the game still runs has taken [dt] off the
    clock, and the clock has not reached zero. *)
Lemma tick_timer (inp : input) (b : bool) (st : state) :
  0 < lives st ->
  game_over (tick sin cos inp b st) = false ->
  time_left (tick sin cos inp b st) = (time_left st - dt_of inp)%Q /\
  (0 < time_left st - dt_of inp)%Q.
Proof.
  intros Hpos Hgo.
  destruct (tick_fields sin cos inp b st Hpos)
    as (_ & _ & Ht & _ & _ & _ & _ & _ & Hc & _).
  destruct Hc as [(_ & Hg & _)|(_ & Hg & _)]; [|congruence].
  rewrite Hgo in Hg. rewrite Ht. clear Ht Hgo.
  unfold after_ammo_check in *.
  destruct (ammo_stage_frame (after_shot sin cos inp b st))
    as (_ & _ & _ & -> & _).
  assert (Hg3 : game_over (after_shot sin cos inp b st) = false).
  { revert Hg. unfold ammo_stage.
    destruct (ammo (after_shot sin cos inp b st) =? 0); [|congruence].
    destruct (alive_count (ducks (after_shot sin cos inp b st))
              =? MAX_DUCKS); simpl; congruence. }
  destruct (after_shot_frame sin cos inp b st) as [Hg2 _].
  rewrite Hg2 in Hg3. unfold after_shot.
  destruct (shoot_stage_frame sin cos b (rnd_particle inp)
              (before_shot inp st)) as (_ & -> & _).
  revert Hg3. unfold before_shot, timer_stage.
  destruct (mouse_stage_frame inp st) as (_ & _ & _ & Htl & _).
  rewrite Htl.
  destruct (Qle_bool (time_left st - dt_of inp) 0) eqn:E; simpl;
    [discriminate|].
  intros _. split; [reflexivity|].
  apply Qnot_le_lt. intros H. apply Qle_bool_iff in H. congruence.
Qed.

(** The timer block: either the time is up, the clock is set to zero
    and the game is over, or [dt] is taken off the clock. *)
Lemma before_shot_time (inp : input) (st : state) :
  ((time_left st <= dt_of inp)%Q /\
   time_left (before_shot inp st) = 0%Q /\
   game_over (before_shot inp st) = true)
  \/
  ((dt_of inp < time_left st)%Q /\
   time_left (before_shot inp st) = (time_left st - dt_of inp)%Q).
Proof.
  unfold before_shot, timer_stage.
  destruct (mouse_stage_frame inp st) as (_ & _ & _ & Htl & _).
  rewrite Htl.
  destruct (Qle_bool (time_left st - dt_of inp) 0) eqn:E; simpl.
  - left. apply Qle_bool_iff in E. repeat split. lra.
  - right. split; [|reflexivity].
    apply Qnot_le_lt. intros H.
    assert (H' : (time_left st - dt_of inp <= 0)%Q) by lra.
    apply Qle_bool_iff in H'. congruence.
Qed.

Lemma tick_keeps_time (inp : input) (b : bool) (st : state) :
  0 < lives st ->
  time_left (tick sin cos inp b st) = time_left (before_shot inp st) /\
  (game_over (before_shot inp st) = true ->
   game_over (tick sin cos inp b st) = true).
Proof.
  intros Hpos.
  destruct (tick_fields sin cos inp b st Hpos)
    as (_ & _ & Ht & _ & _ & _ & _ & _ & Hc & _).
  unfold after_ammo_check in *.
  destruct (ammo_stage_frame (after_shot sin cos inp b st))
    as (_ & _ & _ & Ht4 & _).
  destruct (after_shot_frame sin cos inp b st) as [Hg3 _].
  assert (Ht3 : time_left (after_shot sin cos inp b st)
                = time_left (before_shot inp st)).
  { unfold after_shot.
    apply (shoot_stage_frame sin cos b (rnd_particle inp)
             (before_shot inp st)). }
  split; [congruence|].
  intros Hg.
  assert (Hg4 : game_over (ammo_stage (after_shot sin cos inp b st)) = true).
  { unfold ammo_stage.
    destruct (ammo (after_shot sin cos inp b st) =? 0); [|congruence].
    destruct (alive_count (ducks (after_shot sin cos inp b st))
              =? MAX_DUCKS); simpl; congruence. }
  destruct Hc as [(_ & -> & _)|(_ & -> & _)]; [exact Hg4 | reflexivity].
Qed.

Lemma reachable_clock (st : state) :
  reachable sin cos st ->
  (time_left st <= inject_Z GAME_DURATION)%Q /\
  (game_over st = false -> (0 < time_left st)%Q).
Proof.
  induction 1 as [g | st st' inp Hr IH Hf].
  - simpl. split; [apply Qle_refl | intros _; reflexivity].
  - pose proof (reachable_Inv sin cos st Hr) as HI.
    unfold frame in Hf.
    destruct (process_events (rnd_new_game inp) (events inp) st false)
      as [[st1 b]|] eqn:E; [|discriminate].
    assert (H1 : ((time_left st1 <= inject_Z GAME_DURATION)%Q /\
                  (game_over st1 = false -> (0 < time_left st1)%Q))
                 /\ Inv st1).
    { apply process_events_state in E. destruct E as [-> | ->].
      - split; assumption.
      - split; [|apply new_game_Inv]. simpl.
        split; [apply Qle_refl | intros _; reflexivity]. }
    destruct H1 as [[Hle Hpos] HI1].
    destruct (game_over st1) eqn:Hgo; inversion Hf; subst.
    + split; [exact Hle | intros G; rewrite Hgo in G; discriminate].
    + pose proof (inv_playing st1 HI1 Hgo) as Hlives.
      destruct (tick_keeps_time inp b st1 Hlives) as [Ht Hg].
      pose proof (dt_of_nonneg inp) as Hdt.
      specialize (Hpos eq_refl).
      destruct (before_shot_time inp st1) as [(Hup & H0 & G)|(Hdown & Hd)].
      * rewrite Ht, H0. split; [lra|].
        intros G'. rewrite (Hg G) in G'. discriminate.
      * rewrite Ht, Hd. split; [lra | intros _; lra].
Qed.

(** X9.  The clock runs down and out: in a running game the clock is
    above 0 and at most [GAME_DURATION]; an iteration whose [dt] is at
    least the time left sets [time_left] to 0 and ends the round; and
    when the round is still running after an iteration, its [dt] was
    below the time left and the clock is still above 0 and no higher
    than before. *)
Theorem clock_runs_out (st st' : state) (inp : input) :
  reachable sin cos st ->
  game_over st = false ->
  frame sin cos st inp = Some st' ->
  (0 < time_left st <= inject_Z GAME_DURATION)%Q /\
  ((time_left st <= dt_of inp)%Q ->
   time_left st' = 0%Q /\ game_over st' = true) /\
  (game_over st' = false ->
   (dt_of inp < time_left st)%Q /\
   (0 < time_left st' <= time_left st)%Q).
Proof.
  intros Hr Hgo Hf.
  pose proof (reachable_Inv sin cos st Hr) as HI.
  destruct (reachable_clock st Hr) as [Hle Hpos]. specialize (Hpos Hgo).
  apply frame_playing in Hf; [|exact Hgo]. subst st'.
  destruct (tick_keeps_time inp (existsb is_click (events inp)) st
              (inv_playing st HI Hgo)) as [Ht Hg].
  pose proof (dt_of_nonneg inp) as Hdt.
  split; [split; assumption|].
  destruct (before_shot_time inp st) as [(Hup & H0 & G)|(Hdown & Hd)].
  - split.
    + intros _. split; [congruence | apply Hg; exact G].
    + intros G'. rewrite (Hg G) in G'. discriminate.
  - split.
    + intros Hup. lra.
    + intros _. split; [exact Hdown|]. rewrite Ht, Hd. split; lra.
Qed.

End Clock.

Lemma clock_runs_out_witness :
  time_left (after (nine_misses ++ [input_of 60000 click])) = 0%Q /\
  game_over (after (nine_misses ++ [input_of 60000 click])) = true.
Proof.
  destruct (clock_runs_out flat flat (after nine_misses)
              (after (nine_misses ++ [input_of 60000 click]))
              (input_of 60000 click)) as (_ & H & _).
  - apply after_reachable.
  - by_run.
  - by_run.
  - apply H. vm_compute. discriminate.
Defined.

(** * The flight of a particle *)

(** X10.  A particle flies a parabola: after [n] calls of [update] with
    the same [dt], [life] has gone down by [n * dt], the horizontal
    velocity is what it was, [x] has moved by [n * vx * dt], the vertical
    velocity has gained [400 * n * dt] and [y] has moved by
    [n * vy * dt + 400 * dt^2 * n * (n - 1) / 2]. *)
Theorem particle_parabola (p : Particle.t) (dt : Q) (n : nat) :
  let k := inject_Z (Z.of_nat n) in
  let p' := Nat.iter n (fun a => Particle.update a dt) p in
  (Particle.life p' == Particle.life p - k * dt)%Q /\
  Particle.max_life p' = Particle.max_life p /\
  Particle.vx p' = Particle.vx p /\
  (Particle.x p' == Particle.x p + k * Particle.vx p * dt)%Q /\
  (Particle.vy p' == Particle.vy p + 400 * k * dt)%Q /\
  (Particle.y p'
   == Particle.y p + k * Particle.vy p * dt
      + 400 * dt * dt * (k * (k - 1) / 2))%Q.
Proof.
  induction n as [|n IH].
  - simpl. repeat split; try reflexivity; try ring.
    unfold Qdiv. ring.
  - destruct IH as (Hl & Hm & Hvx & Hx & Hvy & Hy).
    rewrite Nat2Z.inj_succ. unfold Z.succ. rewrite inject_Z_plus.
    change (inject_Z 1) with 1%Q.
    cbv zeta in *. simpl Nat.iter.
    set (q := Nat.iter n (fun a => Particle.update a dt) p) in *.
    set (k := inject_Z (Z.of_nat n)) in *.
    unfold Particle.update; simpl.
    split; [rewrite Hl; ring|].
    split; [exact Hm|].
    split; [exact Hvx|].
    split; [rewrite Hx, Hvx; ring|].
    split; [rewrite Hvy; ring|].
    rewrite Hy, Hvy. field.
Qed.

(** * The flight of a duck *)

Section Flight.
Variable sin : Q -> Q.

Lemma updates_one_way (steps : list (Q * Z)) :
  forall d : Duck.t,
    Duck.lifecycle_of d = Duck.Flying ->
    Forall (fun s => (0 <= fst s)%Q /\ 0 <= snd s) steps ->
    Duck.lifecycle_of (updates sin d steps) = Duck.Flying /\
    Duck.dir (updates sin d steps) = Duck.dir d /\
    Duck.size (updates sin d steps) = Duck.size d /\
    (Duck.dir d = 1 -> (Duck.x d <= Duck.x (updates sin d steps))%Q) /\
    (Duck.dir d = -1 -> (Duck.x (updates sin d steps) <= Duck.x d)%Q).
Proof.
  unfold updates.
  induction steps as [|s rest IH]; intros d Hfly Hsteps; simpl.
  - split; [exact Hfly|]. repeat split; intros _; apply Qle_refl.
  - inversion Hsteps as [|a l [Hdt Hsp] Hrest]; subst.
    assert (Ha : Duck.alive d = true /\ Duck.hit d = false).
    { revert Hfly. unfold Duck.lifecycle_of.
      destruct (Duck.alive d), (Duck.hit d); try discriminate.
      split; reflexivity. }
    destruct Ha as [Ha Hh].
    set (d1 := Duck.update sin d (fst s) (snd s)).
    assert (H1 : Duck.lifecycle_of d1 = Duck.Flying
                 /\ Duck.dir d1 = Duck.dir d /\ Duck.size d1 = Duck.size d
                 /\ Duck.x d1
                    = (Duck.x d + inject_Z (Duck.dir d * snd s) * fst s)%Q).
    { unfold d1, Duck.update, Duck.lifecycle_of. rewrite Ha, Hh. simpl.
      repeat split. }
    destruct H1 as (Hf1 & Hd1 & Hs1 & Hx1).
    destruct (IH d1 Hf1 Hrest) as (Hf & Hd & Hs & Hr & Hl).
    assert (Hstep : (0 <= inject_Z (snd s) * fst s)%Q).
    { apply Qmult_le_0_compat; [|exact Hdt].
      change 0%Q with (inject_Z 0). rewrite <- Zle_Qle. exact Hsp. }
    split; [exact Hf|]. split; [congruence|]. split; [congruence|].
    split; intros Hdir.
    + assert (Hgo : (Duck.x d <= Duck.x d1)%Q).
      { rewrite Hx1, Hdir, Z.mul_1_l. lra. }
      eapply Qle_trans; [exact Hgo|]. apply Hr. congruence.
    + assert (Hgo : (Duck.x d1 <= Duck.x d)%Q).
      { rewrite Hx1, Hdir.
        replace (-1 * snd s) with (- snd s) by lia.
        rewrite inject_Z_opp. lra. }
      eapply Qle_trans; [|exact Hgo]. apply Hl. congruence.
Qed.

(** X11.  A duck flies one way: while it is not hit, calls of [update]
    (with [dt >= 0] and a speed [>= 0]) leave it Flying, keep its
    direction and never move it backwards.  So, counted from a reset, a
    duck heading right is off-screen only past the right margin
    ([x > WIN_W + 2 * size]) and a duck heading left only past the left
    one ([x < - 2 * size]): a duck never costs a life by the edge it
    came in from. *)
Theorem duck_flies_one_way (d : Duck.t) (sp : Z) (r : Duck.rnd)
    (steps : list (Q * Z)) :
  0 < Duck.size d ->
  Forall (fun s => (0 <= fst s)%Q /\ 0 <= snd s) steps ->
  let d0 := Duck.reset d sp r in
  let d' := updates sin d0 steps in
  Duck.lifecycle_of d' = Duck.Flying /\
  Duck.dir d' = Duck.dir d0 /\
  (Duck.dir d0 = 1 ->
   (Duck.x d0 <= Duck.x d')%Q /\
   (Duck.is_offscreen d' = true <->
    (inject_Z (WIN_W + 2 * Duck.size d) < Duck.x d')%Q)) /\
  (Duck.dir d0 = -1 ->
   (Duck.x d' <= Duck.x d0)%Q /\
   (Duck.is_offscreen d' = true <->
    (Duck.x d' < inject_Z (- (2 * Duck.size d)))%Q)).
Proof.
  intros Hsize Hsteps d0 d'.
  destruct (updates_one_way steps d0 eq_refl Hsteps)
    as (Hf & Hd & Hs & Hr & Hl).
  fold d' in Hf, Hd, Hs, Hr, Hl.
  change (Duck.size d0) with (Duck.size d) in Hs.
  split; [exact Hf|]. split; [exact Hd|].
  assert (Hq : (0 < inject_Z (Duck.size d))%Q)
    by (change 0%Q with (inject_Z 0); rewrite <- Zlt_Qlt; exact Hsize).
  assert (E2 : (inject_Z (WIN_W + 2 * Duck.size d)
                == inject_Z WIN_W + 2 * inject_Z (Duck.size d))%Q)
    by (rewrite inject_Z_plus, inject_Z_mult; reflexivity).
  assert (Em : (inject_Z (- (2 * Duck.size d))
                == - (2 * inject_Z (Duck.size d)))%Q)
    by (rewrite inject_Z_opp, inject_Z_mult; reflexivity).
  assert (Hw : (0 < inject_Z WIN_W)%Q) by reflexivity.
  assert (Hx0 : Duck.x d0
                = if Duck.choice_dir r then inject_Z (- Duck.size d)
                  else inject_Z (WIN_W + Duck.size d))
    by (unfold d0, Duck.reset; destruct (Duck.choice_dir r); reflexivity).
  assert (Hd0 : Duck.dir d0 = if Duck.choice_dir r then 1 else -1)
    by reflexivity.
  rewrite is_offscreen_iff, Hs, E2, Em.
  split; intros Hdir.
  - specialize (Hr Hdir). split; [exact Hr|].
    rewrite Hd0 in Hdir. destruct (Duck.choice_dir r); [|discriminate].
    rewrite Hx0, inject_Z_opp in Hr.
    split; [intros [H|H] | intros H; right]; lra.
  - specialize (Hl Hdir). split; [exact Hl|].
    rewrite Hd0 in Hdir. destruct (Duck.choice_dir r); [discriminate|].
    rewrite Hx0, inject_Z_plus in Hl.
    split; [intros [H|H] | intros H; left]; lra.
Qed.

End Flight.

Lemma duck_flies_one_way_witness :
  (Duck.x (Duck.reset duck_at_100 180 (rnd_duck 0%nat))
   <= Duck.x (updates flat (Duck.reset duck_at_100 180 (rnd_duck 0%nat))
                [((16 # 1000)%Q, 180%Z); ((17 # 1000)%Q, 195%Z)]))%Q.
Proof.
  destruct (duck_flies_one_way flat duck_at_100 180 (rnd_duck 0%nat)
              [((16 # 1000)%Q, 180); ((17 # 1000)%Q, 195)])
    as (_ & _ & Hright & _).
  - reflexivity.
  - repeat constructor; simpl; try lia; discriminate.
  - apply Hright. reflexivity.
Defined.

(** * The particles of a shot *)

Section Bursts.
Variables sin cos : Q -> Q.

Lemma burst_placed (g : nat -> Particle.rnd) (k0 n : nat) (x0 y0 : Q) :
  List.length (burst sin cos g k0 n x0 y0) = n /\
  Forall (placed_at x0 y0) (burst sin cos g k0 n x0 y0).
Proof.
  unfold burst. split; [now rewrite length_map, length_seq|].
  apply Forall_forall. intros p Hin. apply in_map_iff in Hin.
  destruct Hin as (k & <- & _). repeat split.
Qed.

(** X12.  What a shot throws up: a shot that is resolved ([ammo > 0])
    either misses (no duck is Flying and under the reticle, no duck
    changes) and appends exactly 8 particles at the reticle; or hits the
    first duck of the pool that is Flying and under the reticle, and
    appends 18 particles at the position of that very duck, then 8 at
    the reticle.  Every new particle starts with its full life, and the
    particles already in the list are kept, in order. *)
Theorem shot_throws_particles (g : nat -> Particle.rnd) (st : state) :
  0 < ammo st ->
  let st' := shoot_stage sin cos true g st in
  let px := inject_Z (mx st) in
  let py := inject_Z (my st) in
  (score st' = score st /\
   ducks st' = ducks st /\
   Forall (fun d => eligible px py d = false) (ducks st) /\
   exists flash : list Particle.t,
     particles st' = particles st ++ flash /\
     List.length flash = 8%nat /\ Forall (placed_at px py) flash)
  \/
  (score st' = score st + 100 /\
   exists (l1 : list Duck.t) (d : Duck.t) (l2 : list Duck.t)
          (feathers flash : list Particle.t),
     ducks st = l1 ++ d :: l2 /\
     Forall (fun d0 => eligible px py d0 = false) l1 /\
     eligible px py d = true /\
     ducks st' = l1 ++ fst (Duck.shoot d) :: l2 /\
     Duck.lifecycle_of (fst (Duck.shoot d)) = Duck.Hit /\
     particles st' = particles st ++ feathers ++ flash /\
     List.length feathers = 18%nat /\
     Forall (placed_at (Duck.x d) (Duck.y d)) feathers /\
     List.length flash = 8%nat /\ Forall (placed_at px py) flash).
Proof.
  intros Hammo st' px py.
  destruct (shoot_stage_fired sin cos g st Hammo) as (_ & Hd & Hcase).
  fold st' px py in Hd, Hcase.
  pose proof (shoot_scan_spec px py (ducks st)) as Hscan.
  destruct (snd (shoot_scan (ducks st) px py)) as [h|].
  - right. destruct Hcase as (Hs & _ & Hp). split; [exact Hs|].
    destruct Hscan as (l1 & d & l2 & Hsplit & Hl1 & Hel & Hh & Hfst).
    assert (Hxy : Duck.x h = Duck.x d /\ Duck.y h = Duck.y d).
    { subst h. unfold Duck.shoot.
      destruct (negb (Duck.alive d) || Duck.hit d); split; reflexivity. }
    destruct Hxy as [Ex Ey]. rewrite Ex, Ey in Hp.
    exists l1, d, l2, (burst sin cos g 0 18 (Duck.x d) (Duck.y d)),
      (burst sin cos g 18 8 px py).
    destruct (burst_placed g 0 18 (Duck.x d) (Duck.y d)) as [L1 F1].
    destruct (burst_placed g 18 8 px py) as [L2 F2].
    destruct (eligible_shoot_hit px py d Hel) as (Hlc & _).
    split; [exact Hsplit|]. split; [exact Hl1|]. split; [exact Hel|].
    split; [rewrite Hd, Hfst, Hh; reflexivity|].
    split; [exact Hlc|].
    split; [rewrite Hp; now rewrite app_assoc|].
    repeat split; assumption.
  - left. destruct Hcase as (Hs & _ & Hp). split; [exact Hs|].
    destruct Hscan as [Hfst Hall].
    split; [rewrite Hd; exact Hfst|]. split; [exact Hall|].
    exists (burst sin cos g 0 8 px py).
    destruct (burst_placed g 0 8 px py) as [L F].
    repeat split; assumption.
Qed.

End Bursts.

Lemma shot_throws_particles_witness :
  score (shoot_stage flat flat true rnd_part aimed) = score aimed + 100 /\
  List.length (particles (shoot_stage flat flat true rnd_part aimed))
  = 26%nat /\
  map Duck.lifecycle_of (ducks (shoot_stage flat flat true rnd_part aimed))
  = [Duck.Hit; Duck.Flying; Duck.Flying].
Proof.
  destruct (shot_throws_particles flat flat rnd_part aimed)
    as [(Hs & _)
       |(Hs & l1 & d & l2 & fe & fl & _ & _ & _ & _ & _ & Hp & L1 & _
         & L2 & _)].
  - by_run.
  - vm_compute in Hs. discriminate Hs.
  - split; [exact Hs|]. split.
    + rewrite Hp, !length_app, L1, L2. reflexivity.
    + by_run.
Defined.

(** * Drawing *)

Lemma py_int_zero (n : Z) : py_int (inject_Z n * 0) = 0.
Proof.
  unfold py_int. simpl. rewrite Z.mul_0_r. apply Z.quot_0_l. discriminate.
Qed.

Lemma py_int_le (q : Q) (n : Z) :
  (0 <= q)%Q -> (q <= inject_Z n)%Q -> py_int q <= n.
Proof.
  unfold py_int, Qle. destruct q as [a b]. simpl.
  rewrite !Z.mul_1_r. intros H0 Hn.
  rewrite Z.quot_div_nonneg by lia.
  apply Z.div_le_upper_bound; lia.
Qed.

(** X13.  A particle that has run out of life is not drawn, so the
    particles the loop keeps for one tick after their life has fallen to
    zero or below are invisible.  In general [Particle.draw] (for
    [max_life > 0]) draws nothing or one circle in the colour of the
    particle, of radius at least 1 and, while [life <= max_life], at most
    [r]. *)
Theorem expired_particle_is_invisible (p : Particle.t) :
  (0 < Particle.max_life p)%Q ->
  ((Particle.life p <= 0)%Q -> particle_draw p = Some []) /\
  (particle_draw p = Some []
   \/ exists radius : Z,
        particle_draw p
        = Some [DrawCircle (Particle.col p) (py_int (Particle.x p))
                  (py_int (Particle.y p)) radius] /\
        0 < radius /\
        (0 <= Particle.r p ->
         (Particle.life p <= Particle.max_life p)%Q ->
         radius <= Particle.r p)).
Proof.
  intros Hmax. unfold particle_draw.
  assert (E : Qeq_bool (Particle.max_life p) 0 = false).
  { destruct (Qeq_bool (Particle.max_life p) 0) eqn:E; [|reflexivity].
    apply Qeq_bool_eq in E. rewrite E in Hmax. discriminate Hmax. }
  rewrite E. split.
  - intros Hlife.
    assert (Hq : Qlt_bool 0 (Particle.life p / Particle.max_life p) = false).
    { apply Qlt_bool_false_iff. unfold Qdiv.
      setoid_replace 0%Q with (0 * / Particle.max_life p)%Q by ring.
      apply Qmult_le_compat_r; [exact Hlife|].
      apply Qlt_le_weak, Qinv_lt_0_compat, Hmax. }
    rewrite Hq, py_int_zero. reflexivity.
  - destruct (Qlt_bool 0 (Particle.life p / Particle.max_life p)) eqn:Hq.
    + destruct (py_int (inject_Z (Particle.r p)
                        * (Particle.life p / Particle.max_life p)) >? 0)
        eqn:Hr; [|left; reflexivity].
      right. eexists. split; [reflexivity|].
      apply Z.gtb_lt in Hr. split; [exact Hr|].
      intros Hr0 Hle. apply Qlt_bool_iff in Hq.
      assert (H1 : (Particle.life p / Particle.max_life p <= 1)%Q).
      { apply Qle_shift_div_r; [exact Hmax | lra]. }
      assert (Hrq : (0 <= inject_Z (Particle.r p))%Q)
        by (change 0%Q with (inject_Z 0); rewrite <- Zle_Qle; exact Hr0).
      apply py_int_le.
      * apply Qmult_le_0_compat; [exact Hrq | lra].
      * setoid_replace (inject_Z (Particle.r p))
          with (inject_Z (Particle.r p) * 1)%Q at 2 by ring.
        rewrite (Qmult_comm (inject_Z (Particle.r p))
                   (Particle.life p / Particle.max_life p)).
        rewrite (Qmult_comm (inject_Z (Particle.r p)) 1).
        apply Qmult_le_compat_r; assumption.
    + rewrite py_int_zero. left. reflexivity.
Qed.

Lemma faded_flash_lives :
  Forall (fun p => (0 < Particle.max_life p)%Q /\ (Particle.life p <= 0)%Q)
    (particles (after flash_fading)).
Proof. vm_compute. repeat constructor; congruence. Qed.

Lemma expired_particle_is_invisible_witness :
  Forall (fun p => particle_draw p = Some [])
    (particles (after flash_fading)).
Proof.
  apply Forall_forall. intros p Hin.
  pose proof faded_flash_lives as Hall.
  rewrite Forall_forall in Hall. destruct (Hall p Hin) as [Hmax Hlife].
  apply (expired_particle_is_invisible p Hmax). exact Hlife.
Defined.

Lemma shows_app (text : string) (c : color) (a b : list cmd) :
  shows text c (a ++ b) = (shows text c a + shows text c b)%nat.
Proof. unfold shows. now rewrite filter_app, length_app. Qed.

Lemma small_cases (n hi : Z) :
  0 <= n <= hi -> In n (range (hi + 1)).
Proof.
  intros H. unfold range. apply in_map_iff. exists (Z.to_nat n).
  split; [lia|]. apply in_seq. lia.
Qed.

(** X14.  The HUD tells the truth: for [0 <= lives <= STARTING_LIVES]
    and [0 <= ammo <= STARTING_AMMO] (as in every state the loop
    reaches) [draw_hud] blits exactly [lives] red hearts and
    [STARTING_LIVES - lives] grey ones, exactly [ammo] lit bullets and
    [STARTING_AMMO - ammo] dark ones, whatever the score and the time. *)
Theorem hud_shows_lives_and_ammo (score0 lives0 ammo0 : Z) (time_left0 : Q) :
  0 <= lives0 <= STARTING_LIVES ->
  0 <= ammo0 <= STARTING_AMMO ->
  let hud := draw_hud score0 lives0 ammo0 time_left0 in
  shows HEART HEART_ON hud = Z.to_nat lives0 /\
  shows HEART HEART_OFF hud = Z.to_nat (STARTING_LIVES - lives0) /\
  shows BULLET BULLET_ON hud = Z.to_nat ammo0 /\
  shows BULLET BULLET_OFF hud = Z.to_nat (STARTING_AMMO - ammo0).
Proof.
  intros Hl Ha hud.
  apply (small_cases lives0 STARTING_LIVES) in Hl.
  apply (small_cases ammo0 STARTING_AMMO) in Ha.
  unfold range in Hl, Ha. simpl in Hl, Ha.
  destruct Hl as [<-|[<-|[<-|[<-|[<-|[<-|[<-|[]]]]]]]];
    destruct Ha as [<-|[<-|[<-|[<-|[<-|[<-|[<-|[<-|[<-|[<-|[<-|[]]]]]]]]]]]];
    repeat split; vm_compute; reflexivity.
Qed.

Lemma hud_shows_lives_and_ammo_witness :
  shows HEART HEART_ON (draw_hud 300 4 7 (425 # 10)) = 4%nat /\
  shows BULLET BULLET_ON (draw_hud 300 4 7 (425 # 10)) = 7%nat.
Proof.
  destruct (hud_shows_lives_and_ammo 300 4 7 (425 # 10))
    as (H1 & _ & H2 & _).
  - unfold STARTING_LIVES. lia.
  - unfold STARTING_AMMO. lia.
  - split; assumption.
Defined.

(** X15.  What a duck looks like: a duck of the pool (alive, of size 48,
    flying left or right) is drawn as five shapes: the body (48 by 28,
    around the truncated position), a wing, the head, the beak and the
    eye.  Head, beak and eye are on the side the duck flies to (16, 24
    to 34 and 19 pixels from the centre, times [dir]); body, wing and
    head turn to [DUCK_HIT_COL] once the duck is hit. *)
Theorem duck_faces_its_way (d : Duck.t) :
  duck_in_pool d ->
  let x := py_int (Duck.x d) in
  let y := py_int (Duck.y d) in
  let col := if Duck.hit d then DUCK_HIT_COL else DUCK_BODY in
  let wing := if Duck.hit d then DUCK_HIT_COL else DUCK_WING in
  exists wing_pts : list (Z * Z),
    List.length wing_pts = 3%nat /\
    duck_draw d
    = [DrawEllipse col (x - 24) (y - 16) 48 28;
       DrawPolygon wing wing_pts;
       DrawCircle col (x + 16 * Duck.dir d) (y - 16) 9;
       DrawPolygon DUCK_BEAK
         [(x + 16 * Duck.dir d + 8 * Duck.dir d, y - 16);
          (x + 16 * Duck.dir d + 18 * Duck.dir d, y - 16 - 3);
          (x + 16 * Duck.dir d + 18 * Duck.dir d, y - 16 + 3)];
       DrawCircle DUCK_EYE (x + 16 * Duck.dir d + 3 * Duck.dir d)
         (y - 16 - 2) 3].
Proof.
  intros (Ha & Hs & _ & _ & _) x y col wing.
  unfold duck_draw. rewrite Ha, Hs. simpl negb. cbv iota.
  change (48 / 2) with 24. change (48 / 3) with 16.
  change (48 / 4) with 12. change (48 / 5) with 9.
  change (py_int (inject_Z 48 * (6 # 10))) with 28.
  change (py_int (inject_Z 48 * (18 # 100))) with 8.
  change (py_int (inject_Z 48 * (38 # 100))) with 18.
  change (py_int (inject_Z 48 * (8 # 100))) with 3.
  fold x y col wing.
  eexists. split; [|reflexivity].
  destruct (Duck.wing_up d); reflexivity.
Qed.

Lemma duck_faces_its_way_witness :
  exists rest : list cmd,
    duck_draw duck_at_100
    = DrawEllipse DUCK_BODY 76 84 48 28 :: rest.
Proof.
  destruct (duck_faces_its_way duck_at_100) as (pts & _ & H).
  - unfold duck_in_pool, duck_at_100, duck_at_100_x, Duck.FLAP_SPEED. simpl.
    split; [reflexivity|]. split; [reflexivity|]. split; [left; reflexivity|].
    split; [lia | discriminate].
  - eexists. rewrite H. reflexivity.
Defined.

Section Screens.
Variables sin cos : Q -> Q.

(** X16.  What an iteration shows.  While the game runs, an iteration
    draws the state its own tick leaves, even when that tick ends the
    round: the end screen appears one iteration later.  Once the game is
    over (and [R] is not pressed), every iteration leaves the state alone
    and draws the same end screen: the background, a dark overlay, one of
    the three end reasons, the final score and the restart hint. *)
Theorem screen_follows_state (st st' : state) (inp : input) :
  reachable sin cos st ->
  frame sin cos st inp = Some st' ->
  (game_over st = false -> frame_screen sin cos st inp = play_screen st') /\
  (game_over st = true ->
   existsb is_restart (events inp) = false ->
   st' = st /\
   frame_screen sin cos st inp = Some (over_screen st) /\
   exists e : endReason,
     over_screen st
     = [BlitBackground;
        BlitPanel WIN_W WIN_H (0, 0, 0, 180) 0 0;
        BlitTextCentered (reason_string e) font_huge TEXT_SHADOW
          640 240 2 2;
        BlitTextCentered (reason_string e) font_huge (255, 80, 80)
          640 240 0 0;
        BlitTextCentered ("SCORE: " ++ py_str (score st)) font_big
          TEXT_SHADOW 640 330 2 2;
        BlitTextCentered ("SCORE: " ++ py_str (score st)) font_big
          (255, 220, 60) 640 330 0 0;
        BlitTextCentered "Press R to Restart or ESC to Quit" font_med
          TEXT_SHADOW 640 420 2 2;
        BlitTextCentered "Press R to Restart or ESC to Quit" font_med
          TEXT_COL 640 420 0 0;
        Flip]).
Proof.
  intros Hr Hf. pose proof (reachable_Inv sin cos st Hr) as HI.
  unfold frame in Hf. unfold frame_screen.
  destruct (process_events (rnd_new_game inp) (events inp) st false)
    as [[st1 b]|] eqn:P; [|discriminate].
  split.
  - intros Hgo. apply process_events_playing in P; [|exact Hgo].
    destruct P as [-> ->]. rewrite Hgo in *. congruence.
  - intros Hgo Hnr. apply process_events_over in P; [|assumption|assumption].
    destruct P as [-> ->]. rewrite Hgo in *.
    split; [congruence|]. split; [reflexivity|].
    destruct (inv_reason st HI) as [[Hg _]|[_ [e He]]]; [congruence|].
    exists e. unfold over_screen, draw_endscreen. rewrite He. reflexivity.
Qed.

End Screens.

Lemma screen_follows_state_witness :
  frame_screen flat flat (after (nine_misses ++ [input_of 16 click]))
    (input_of 16 click)
  = Some (over_screen (after (nine_misses ++ [input_of 16 click]))).
Proof.
  destruct (screen_follows_state flat flat
              (after (nine_misses ++ [input_of 16 click]))
              (after (nine_misses ++ [input_of 16 click]))
              (input_of 16 click)) as [_ H].
  - apply after_reachable.
  - by_run.
  - destruct H as (_ & Hs & _); [by_run | reflexivity | exact Hs].
Defined.
